(** * Dixon-Coles parameter estimation for korfball results

    A shallow embedding of the code cells of the notebook
    "Predicting Korfball Results with Statistical Modelling - Dixon-Coles
    and Time-Weighting": [rho_correction], [dc_log_like] and
    [solve_parameters] with its nested objective [estimate_parameters].

    Numbers.  The notebook computes with NumPy float64 values.  They are
    modelled by [float64]: a real number, or one of the IEEE special values
    +inf, -inf and NaN.  The special values follow the IEEE rules NumPy
    uses.  [np.exp] leaves the range of float64 as it does in the code: it
    gives 0 when the exponential is at most 2^-1075, half the smallest
    positive float64, and +inf when it reaches 2^1024.  Sums and products of
    finite values are the exact sums and products of the reals: rounding,
    absorption and the overflow of [+] and [*] are not modelled, and the
    statements below are written so that they read the same on the computed
    values.

    Effects.  [solve_parameters] draws random numbers from NumPy's global
    generator and calls SciPy's [minimize].  Both are outside the notebook,
    so the solver is a program over two external calls ([prog]); [exec]
    gives its runs, for every behaviour of the two calls. *)

From Stdlib Require Import Reals Lra ZArith String.
From Stdlib Require OrderedTypeEx.
From stdpp Require Import gmap strings list sorting.

(** ** NumPy floating-point values *)

Module F64.

Inductive float64 : Type :=
| Fin (r : R)
| PosInf
| NegInf
| NaN.

Definition is_finite (a : float64) : Prop :=
  match a with Fin _ => True | _ => False end.

(** [-a] *)
Definition fneg (a : float64) : float64 :=
  match a with
  | Fin r => Fin (- r)
  | PosInf => NegInf
  | NegInf => PosInf
  | NaN => NaN
  end.

(** [a + b]; inf + (-inf) is NaN. *)
Definition fadd (a b : float64) : float64 :=
  match a, b with
  | NaN, _ | _, NaN => NaN
  | Fin r, Fin s => Fin (r + s)
  | PosInf, NegInf | NegInf, PosInf => NaN
  | PosInf, _ | _, PosInf => PosInf
  | NegInf, _ | _, NegInf => NegInf
  end.

(** [a - b] *)
Definition fsub (a b : float64) : float64 := fadd a (fneg b).

(** The product of an infinity (positive when [pos]) with the finite [r];
    inf * 0 is NaN. *)
Definition mul_inf (pos : bool) (r : R) : float64 :=
  if Rlt_dec 0 r then (if pos then PosInf else NegInf)
  else if Rlt_dec r 0 then (if pos then NegInf else PosInf)
  else NaN.

(** [a * b] *)
Definition fmul (a b : float64) : float64 :=
  match a, b with
  | NaN, _ | _, NaN => NaN
  | Fin r, Fin s => Fin (r * s)
  | PosInf, Fin r | Fin r, PosInf => mul_inf true r
  | NegInf, Fin r | Fin r, NegInf => mul_inf false r
  | PosInf, PosInf | NegInf, NegInf => PosInf
  | PosInf, NegInf | NegInf, PosInf => NegInf
  end.

(** Half the smallest positive float64, 2^-1074: an exponential at or below
    it rounds to 0. *)
Definition underflow_bound : R := / 2 ^ 1075.

(** The first power of two beyond the largest float64: an exponential that
    reaches it rounds to +inf. *)
Definition overflow_bound : R := 2 ^ 1024.

(** [np.exp]: 0.0 on underflow (arguments below about -745.13), inf on
    overflow (arguments above about 709.78). *)
Definition np_exp (a : float64) : float64 :=
  match a with
  | Fin r =>
      if Rle_dec (exp r) underflow_bound then Fin 0
      else if Rle_dec overflow_bound (exp r) then PosInf
      else Fin (exp r)
  | PosInf => PosInf
  | NegInf => Fin 0
  | NaN => NaN
  end.

(** [np.log]: -inf at zero and NaN below it (NumPy warns, it does not
    raise). *)
Definition np_log (a : float64) : float64 :=
  match a with
  | Fin r => if Rlt_dec 0 r then Fin (ln r)
             else if Rlt_dec r 0 then NaN else NegInf
  | PosInf => PosInf
  | NegInf => NaN
  | NaN => NaN
  end.

(** Python's builtin [sum]: a left fold of [+] that starts at 0. *)
Definition py_sum (l : list float64) : float64 :=
  fold_left fadd l (Fin 0).

End F64.

Export F64.

Declare Scope f64_scope.
Delimit Scope f64_scope with f64.
Bind Scope f64_scope with float64.
Infix "+" := fadd : f64_scope.
Infix "-" := fsub : f64_scope.
Infix "*" := fmul : f64_scope.
Notation "- a" := (fneg a) : f64_scope.
Notation "1" := (Fin 1) : f64_scope.

(** Modelled from the spec: [scipy.stats.poisson.pmf] is a library function,
    not part of the notebook.  Section 4.3 gives
    Poisson_pmf(k; rate) = exp(-rate) * rate^k / k! and names its underflow
    to 0.  SciPy computes the mass as the exponential of its logarithm
    k * log(rate) - rate - log(k!), so the mass is 0 when that exponential
    underflows.  At rate 0 the mass is 1 for k = 0 and 0 otherwise; outside
    the support (k < 0) it is 0; a rate that is negative or not finite is
    outside the distribution's parameter domain and gives NaN. *)
Definition poisson_pmf (k : Z) (mu : float64) : float64 :=
  match mu with
  | Fin r =>
      if Rlt_dec r 0 then NaN
      else if (k <? 0)%Z then Fin 0
      else if Rlt_dec 0 r then
        np_exp (Fin (IZR k * ln r - r - ln (INR (fact (Z.to_nat k)))))
      else if (k =? 0)%Z then Fin 1
      else Fin 0
  | _ => NaN
  end.

(** ** The score correction and the per-match log-likelihood *)

(** [rho_correction(x, y, lambda_x, mu_y, rho)] *)
Definition rho_correction (x y : Z) (lambda_x mu_y rho : float64) : float64 :=
  if (x =? 0)%Z && (y =? 0)%Z then (1 - (lambda_x * mu_y * rho))%f64
  else if (x =? 0)%Z && (y =? 1)%Z then (1 + (lambda_x * rho))%f64
  else if (x =? 1)%Z && (y =? 0)%Z then (1 + (mu_y * rho))%f64
  else if (x =? 1)%Z && (y =? 1)%Z then (1 - rho)%f64
  else 1%f64.

(** The first line of [dc_log_like]:
    [lambda_x, mu_y = np.exp(alpha_x + beta_y + gamma), np.exp(alpha_y + beta_x)] *)
Definition expected_rates (alpha_x beta_x alpha_y beta_y gamma : float64)
  : float64 * float64 :=
  (np_exp (alpha_x + beta_y + gamma)%f64, np_exp (alpha_y + beta_x)%f64).

(** [dc_log_like(x, y, alpha_x, beta_x, alpha_y, beta_y, rho, gamma)].  The
    notebook defines it twice with the same body: once at top level and once
    inside [solve_parameters]. *)
Definition dc_log_like (x y : Z)
  (alpha_x beta_x alpha_y beta_y rho gamma : float64) : float64 :=
  let '(lambda_x, mu_y) := expected_rates alpha_x beta_x alpha_y beta_y gamma in
  (np_log (rho_correction x y lambda_x mu_y rho)
   + np_log (poisson_pmf x lambda_x) + np_log (poisson_pmf y mu_y))%f64.

(** ** Python exceptions and results *)

Inductive exn : Type :=
| ValueError (msg : string)
| TypeError (msg : string)
| KeyError (key : string).

(** A Python expression either raises or yields a value. *)
Definition result (A : Type) : Type := exn + A.

Definition rbind {A B} (m : result A) (f : A -> result B) : result B :=
  match m with
  | inl e => inl e
  | inr a => f a
  end.

Declare Scope result_scope.
Delimit Scope result_scope with result.
Notation "x <- m ;; k" := (rbind m (fun x => k))
  (at level 100, m at next level, right associativity) : result_scope.

(** A list comprehension whose element expression can raise: elements are
    computed in order and the first exception ends the comprehension. *)
Fixpoint comprehension {A B} (f : A -> result B) (l : list A)
  : result (list B) :=
  match l with
  | [] => inr []
  | a :: l' =>
      (b <- f a;; bs <- comprehension f l';; inr (b :: bs))%result
  end.

(** ** The match table *)

(** One row of the pandas DataFrame the notebook loads, with its columns
    'Home Team', 'Home Score', 'Away Team' and 'Away Score'. *)
Record match_record : Type := mkMatch {
  home_team : string;
  home_score : Z;
  away_team : string;
  away_score : Z
}.

Definition DataFrame : Type := list match_record.

(** [dataset['Home Team']] and [dataset['Away Team']]: a column. *)
Definition column_home_team (dataset : DataFrame) : list string :=
  map home_team dataset.

Definition column_away_team (dataset : DataFrame) : list string :=
  map away_team dataset.

(** [Series.unique()]: the distinct values, in order of first appearance. *)
Fixpoint unique_from (seen l : list string) : list string :=
  match l with
  | [] => []
  | s :: l' =>
      if bool_decide (s ∈ seen) then unique_from seen l'
      else s :: unique_from (s :: seen) l'
  end.

Definition unique (l : list string) : list string := unique_from [] l.

(** [np.sort] on an array of Python strings: ascending in Python's string
    order, which compares character codes lexicographically.  Equal strings
    cannot be told apart, so the sorting algorithm does not show in the
    result; insertion sort is used here. *)
Fixpoint sort_insert (s : string) (l : list string) : list string :=
  match l with
  | [] => [s]
  | t :: l' => if String.leb s t then s :: t :: l' else t :: sort_insert s l'
  end.

Definition np_sort (l : list string) : list string :=
  foldr sort_insert [] l.

(** [np.array_equal]: same length and equal element by element. *)
Definition array_equal (a b : list string) : bool := bool_decide (a = b).

(** A row as [DataFrame.itertuples()] yields it: a namedtuple
    [Pandas(Index, _1, _2, _3, _4)].  The column names are not Python
    identifiers, so pandas renames the fields by position. *)
Record Pandas : Type := mkPandas {
  Index : nat;
  _1 : string;
  _2 : Z;
  _3 : string;
  _4 : Z
}.

Definition itertuples (dataset : DataFrame) : list Pandas :=
  imap (fun i r =>
          mkPandas i (home_team r) (home_score r) (away_team r) (away_score r))
       dataset.

(** [row[key]] for a string [key] on a row of [itertuples].  A namedtuple is
    a tuple: its subscript must be an integer or a slice, and a string
    subscript raises TypeError whatever the row holds. *)
Definition getitem_str {A} (row : Pandas) (key : string) : result A :=
  inl (TypeError "tuple indices must be integers or slices, not str").

(** ** Dictionaries *)

(** [dict(pairs)]: pairs are inserted in order, a later pair replaces an
    earlier one with the same key. *)
Definition dict {V} (pairs : list (string * V)) : gmap string V :=
  fold_left (fun d kv => <[kv.1 := kv.2]> d) pairs ∅.

(** [d[key]]: KeyError when the key is absent. *)
Definition dict_getitem {V} (d : gmap string V) (key : string) : result V :=
  match d !! key with
  | Some v => inr v
  | None => inl (KeyError key)
  end.

(** ** The objective *)

(** The exception of an unpacking into two names that finds [got] values,
    0 or 1. *)
Definition not_enough_values (got : nat) : exn :=
  match got with
  | 0 => ValueError "not enough values to unpack (expected 2, got 0)"
  | _ => ValueError "not enough values to unpack (expected 2, got 1)"
  end.

(** [rho, gamma = params[-2:]]: the slice holds the last two elements, or
    all of them when there are fewer; unpacking needs exactly two. *)
Definition unpack_last_two (params : list float64)
  : result (float64 * float64) :=
  match drop (length params - 2) params with
  | [rho; gamma] => inr (rho, gamma)
  | slice => inl (not_enough_values (length slice))
  end.

(** [estimate_parameters(params)], the closure defined inside
    [solve_parameters]; [dataset], [teams] and [n_teams] are the variables
    it captures. *)
Definition estimate_parameters (dataset : DataFrame) (teams : list string)
  (n_teams : nat) (params : list float64) : result float64 :=
  let score_coefs := dict (zip teams (take n_teams params)) in
  let defend_coefs :=
    dict (zip teams (take (2 * n_teams - n_teams) (drop n_teams params))) in
  (rho_gamma <- unpack_last_two params;;
   let '(rho, gamma) := rho_gamma in
   log_like <-
     comprehension
       (fun row =>
          x <- getitem_str row "Home Score";;
          y <- getitem_str row "Away Score";;
          home <- getitem_str row "Home Team";;
          alpha_x <- dict_getitem score_coefs home;;
          home' <- getitem_str row "Home Team";;
          beta_x <- dict_getitem defend_coefs home';;
          away <- getitem_str row "Away Team";;
          alpha_y <- dict_getitem score_coefs away;;
          away' <- getitem_str row "Away Team";;
          beta_y <- dict_getitem defend_coefs away';;
          inr (dc_log_like x y alpha_x beta_x alpha_y beta_y rho gamma))
       (itertuples dataset);;
   inr (- py_sum log_like)%f64)%result.

(** ** The solver as a program over its external calls *)

(** Values of the option and keyword dictionaries handed to [minimize]. *)
Inductive pyvalue : Type :=
| PyBool (b : bool)
| PyInt (z : Z)
| PyFloat (f : float64)
| PyStr (s : string).

(** One entry of [constraints]: [{'type': ..., 'fun': ...}]. *)
Record Constraint : Type := mkConstraint {
  ctype : string;
  cfun : list float64 -> float64
}.

(** SciPy's [OptimizeResult]: the final vector [x], whether the optimizer
    reports success, the iterations used, the final objective value [fun]
    and the termination message. *)
Module OptimizeResult.
Record t : Type := mk {
  x : list float64;
  success : bool;
  nit : nat;
  fun_ : float64;
  message : string
}.
End OptimizeResult.

(** The arguments of one call
    [minimize(fun, x0, options=..., constraints=..., **kwargs)]. *)
Record minimize_call : Type := mkCall {
  objective : list float64 -> result float64;
  x0 : list float64;
  call_options : gmap string pyvalue;
  call_constraints : list Constraint;
  call_kwargs : gmap string pyvalue
}.

(** Programs: return, raise, draw [np.random.uniform(low, high, size)] from
    the global generator, or call [minimize]. *)
Inductive prog (A : Type) : Type :=
| Ret (a : A)
| Raise (e : exn)
| RandomUniform (low high : float64) (size : nat) (k : list float64 -> prog A)
| Minimize (call : minimize_call) (k : OptimizeResult.t -> prog A).

Arguments Ret {A} a.
Arguments Raise {A} e.
Arguments RandomUniform {A} low high size k.
Arguments Minimize {A} call k.

Fixpoint pbind {A B} (m : prog A) (f : A -> prog B) : prog B :=
  match m with
  | Ret a => f a
  | Raise e => Raise e
  | RandomUniform low high size k =>
      RandomUniform low high size (fun v => pbind (k v) f)
  | Minimize call k => Minimize call (fun r => pbind (k r) f)
  end.

Declare Scope prog_scope.
Delimit Scope prog_scope with prog.
Notation "x <- m ;; k" := (pbind m (fun x => k))
  (at level 100, m at next level, right associativity) : prog_scope.

Definition random_uniform (low high : float64) (size : nat)
  : prog (list float64) :=
  RandomUniform low high size Ret.

Definition minimize (call : minimize_call) : prog OptimizeResult.t :=
  Minimize call Ret.

(** What [solve_parameters] returns: the optimizer's own result object, or
    a dictionary from parameter names to values. *)
Inductive solver_output : Type :=
| RawResult (opt_output : OptimizeResult.t)
| ParamDict (d : gmap string float64).

(** The default of [options]: [{'disp': True, 'maxiter': 100}]. *)
Definition default_options : gmap string pyvalue :=
  <["maxiter" := PyInt 100]> (<["disp" := PyBool true]> ∅).

(** The default of [constraints]:
    [[{'type': 'eq', 'fun': lambda x: sum(x[:20])-20}]]. *)
Definition default_constraints : list Constraint :=
  [mkConstraint "eq" (fun x => (py_sum (take 20 x) - Fin 20)%f64)].

(** The keys of the returned dictionary:
    [["attack_"+team for team in teams] + ["defence_"+team for team in teams]
     + ['rho', 'home_adv']]. *)
Definition param_names (teams : list string) : list string :=
  (String.append "attack_" <$> teams)
  ++ (String.append "defence_" <$> teams)
  ++ ["rho"; "home_adv"].

(** [solve_parameters(dataset, debug, init_vals, options, constraints,
    **kwargs)]; [init_vals] is [None] or an array. *)
Definition solve_parameters (dataset : DataFrame) (debug : bool)
  (init_vals : option (list float64)) (options : gmap string pyvalue)
  (constraints : list Constraint) (kwargs : gmap string pyvalue)
  : prog solver_output :=
  let teams := np_sort (unique (column_home_team dataset)) in
  let away_teams := np_sort (unique (column_away_team dataset)) in
  if negb (array_equal teams away_teams) then
    Raise (ValueError "Something's not right")
  else
    let n_teams := length teams in
    (init_vals <-
       match init_vals with
       | None =>
           attack <- random_uniform (Fin 0) (Fin 1) n_teams;;
           defence <- random_uniform (Fin 0) (Fin (-1)) n_teams;;
           Ret (attack ++ defence ++ [Fin 0; Fin 1])
       | Some v => Ret v
       end;;
     opt_output <-
       minimize (mkCall (estimate_parameters dataset teams n_teams)
                        init_vals options constraints kwargs);;
     if debug then Ret (RawResult opt_output)
     else Ret (ParamDict
                 (dict (zip (param_names teams)
                            (OptimizeResult.x opt_output)))))%prog.

(** ** Runs of a program *)

(** What a run observes of the outside: the samples drawn and the calls to
    the optimizer, each with what it gave back. *)
Inductive event : Type :=
| EvUniform (low high : float64) (size : nat) (sample : list float64)
| EvMinimize (call : minimize_call) (out : result OptimizeResult.t).

(** [exec p tr res]: [p] has a run with the external calls [tr], in order,
    that ends with [res].  A draw gives any array of the requested size;
    the optimizer gives back any result object, or raises.  The relation
    puts no condition on the optimizer; [optimizer_evaluates_objective]
    below singles out the traces in which it evaluates its objective as
    SciPy's does. *)
Inductive exec {A} : prog A -> list event -> result A -> Prop :=
| exec_Ret a :
    exec (Ret a) [] (inr a)
| exec_Raise e :
    exec (Raise e) [] (inl e)
| exec_RandomUniform low high size k sample tr res :
    length sample = size ->
    exec (k sample) tr res ->
    exec (RandomUniform low high size k)
         (EvUniform low high size sample :: tr) res
| exec_Minimize_returns call k r tr res :
    exec (k r) tr res ->
    exec (Minimize call k) (EvMinimize call (inr r) :: tr) res
| exec_Minimize_raises call k e :
    exec (Minimize call k) [EvMinimize call (inl e)] (inl e).

(** The run called the optimizer. *)
Definition calls_minimize (tr : list event) : Prop :=
  exists call out, EvMinimize call out ∈ tr.

(** ** Time weighting *)

(** Modelled from the spec: the notebook announces time weighting in its
    title but holds no code for it.  Section 4.6 gives
    weight = exp(-xi * elapsed_days). *)
Definition time_weight (xi elapsed_days : R) : R :=
  exp (- xi * elapsed_days).

(** ** The objective in the words of the spec *)

(** The objective in the spec's words (sections 4.2 to 4.4): the negated sum,
    over all matches, of log tau + log pmf(x; lambda) + log pmf(y; mu), with
    lambda = exp(alpha_home + beta_away + gamma) and
    mu = exp(alpha_away + beta_home).  The parameter vector holds the attack
    values in team order, then the defence values, then rho and gamma. *)
Module Spec.

Definition team_index (teams : list string) (team : string) : nat :=
  default 0%nat (fst <$> list_find (fun t => t = team) teams).

Definition attack (teams : list string) (params : list float64)
  (team : string) : float64 :=
  nth (team_index teams team) params NaN.

Definition defence (teams : list string) (params : list float64)
  (team : string) : float64 :=
  nth (length teams + team_index teams team) params NaN.

Definition match_log_likelihood (teams : list string)
  (params : list float64) (m : match_record) : float64 :=
  let rho := nth (2 * length teams) params NaN in
  let gamma := nth (2 * length teams + 1) params NaN in
  let lambda :=
    np_exp (attack teams params (home_team m)
            + defence teams params (away_team m) + gamma)%f64 in
  let mu :=
    np_exp (attack teams params (away_team m)
            + defence teams params (home_team m))%f64 in
  (np_log (rho_correction (home_score m) (away_score m) lambda mu rho)
   + np_log (poisson_pmf (home_score m) lambda)
   + np_log (poisson_pmf (away_score m) mu))%f64.

Definition negative_log_likelihood (dataset : DataFrame)
  (teams : list string) (params : list float64) : float64 :=
  (- py_sum (map (match_log_likelihood teams params) dataset))%f64.

End Spec.

(** ** Notions used in the statements *)

(** The solver's two rosters. *)
Definition sorted_home_teams (dataset : DataFrame) : list string :=
  np_sort (unique (column_home_team dataset)).

Definition sorted_away_teams (dataset : DataFrame) : list string :=
  np_sort (unique (column_away_team dataset)).

(** The value of the last statement of [solve_parameters]. *)
Definition returned_value (debug : bool) (teams : list string)
  (opt_output : OptimizeResult.t) : solver_output :=
  if debug then RawResult opt_output
  else ParamDict (dict (zip (param_names teams)
                            (OptimizeResult.x opt_output))).

(** The draws that build the initial vector, and the vector: none when the
    caller gives [init_vals]; otherwise [n_teams] attack values from
    uniform(0, 1), [n_teams] defence values from uniform(0, -1), then 0 for
    rho and 1 for gamma. *)
Definition initial_draws (n_teams : nat) (init_vals : option (list float64))
  (pre : list event) (start : list float64) : Prop :=
  match init_vals with
  | Some v => pre = [] /\ start = v
  | None =>
      exists attack defence,
        length attack = n_teams /\ length defence = n_teams
        /\ pre = [EvUniform (Fin 0) (Fin 1) n_teams attack;
                  EvUniform (Fin 0) (Fin (-1)) n_teams defence]
        /\ start = attack ++ defence ++ [Fin 0; Fin 1]
  end.

(** The arguments of the solver's call to the optimizer, for the initial
    vector [start]. *)
Definition minimize_call_of (dataset : DataFrame)
  (options : gmap string pyvalue) (constraints : list Constraint)
  (kwargs : gmap string pyvalue) (start : list float64) : minimize_call :=
  mkCall (estimate_parameters dataset (sorted_home_teams dataset)
                              (length (sorted_home_teams dataset)))
         start options constraints kwargs.


(** SciPy's [minimize] evaluates its objective at the initial vector before
    anything else, so an exception the objective raises there comes out of
    the call.  A trace agrees with that when every call in it whose
    objective raises at the initial vector ended with that exception. *)
Definition optimizer_evaluates_objective (tr : list event) : Prop :=
  forall call out e,
    EvMinimize call out ∈ tr ->
    objective call (x0 call) = inl e ->
    out = inl e.

(** Python's [<=] on strings. *)
Definition str_le (a b : string) : Prop := String.leb a b = true.

(** ** Sample tables, vectors and optimizer results *)

(** The rows of the 2-team, 2-match scenario of the spec's section 8. *)
Definition two_team_dataset : DataFrame :=
  [mkMatch "Team A" 20 "Team B" 15; mkMatch "Team B" 18 "Team A" 16].

(** A table whose only match has Team A at home and Team B away. *)
Definition one_match_dataset : DataFrame :=
  [mkMatch "Team A" 20 "Team B" 15].

(** The 2-team table with a negative home score in its first row. *)
Definition negative_score_dataset : DataFrame :=
  [mkMatch "Team A" (-3) "Team B" 15; mkMatch "Team B" 18 "Team A" 16].

(** A 2-team table with a 0-0 and a 1-1 result, and a parameter vector
    (attack 0 and 0, defence 0 and 0, rho 2, gamma 0) at which the 0-0 match
    has the correction factor -1. *)
Definition low_score_dataset : DataFrame :=
  [mkMatch "Team A" 0 "Team B" 0; mkMatch "Team B" 1 "Team A" 1].

Definition negative_tau_params : list float64 :=
  [Fin 0; Fin 0; Fin 0; Fin 0; Fin 2; Fin 0].

(** A vector for two teams, and two result objects that hold it: one of an
    optimizer that converged after 7 iterations, one of an optimizer that
    stopped at the cap of 100 iterations without converging. *)
Definition final_vector : list float64 :=
  [Fin 1; Fin 1; Fin 0; Fin 0; Fin 0; Fin 1].

Definition converged_result : OptimizeResult.t :=
  OptimizeResult.mk final_vector true 7 (Fin 50)
                    "Optimization terminated successfully".

Definition capped_result : OptimizeResult.t :=
  OptimizeResult.mk final_vector false 100 (Fin 50)
                    "Iteration limit reached".

(** * Properties *)

(** ** The score correction *)

Lemma rho_correction_otherwise (x y : Z) (lambda_x mu_y rho : float64) :
  (x, y) ∉ [(0, 0); (0, 1); (1, 0); (1, 1)]%Z ->
  rho_correction x y lambda_x mu_y rho = Fin 1.
Proof.
  intros Hout. unfold rho_correction.
  repeat match goal with
         | |- context [(?a =? ?b)%Z] => destruct (Z.eqb_spec a b); subst
         end; simpl; try reflexivity;
    exfalso; apply Hout; rewrite !elem_of_cons; tauto.
Qed.

(** C1: [rho_correction] is the piecewise function of the spec: on real
    rates [l], [m] and a real [r] it is 1 - l*m*r at (0,0), 1 + l*r at
    (0,1), 1 + m*r at (1,0) and 1 - r at (1,1); at every other pair of
    scores it is exactly 1, whatever the other three arguments are. *)
Theorem C1_rho_correction_piecewise (l m r : R) :
  rho_correction 0 0 (Fin l) (Fin m) (Fin r) = Fin (1 - l * m * r)
  /\ rho_correction 0 1 (Fin l) (Fin m) (Fin r) = Fin (1 + l * r)
  /\ rho_correction 1 0 (Fin l) (Fin m) (Fin r) = Fin (1 + m * r)
  /\ rho_correction 1 1 (Fin l) (Fin m) (Fin r) = Fin (1 - r)
  /\ (forall (x y : Z) (lambda_x mu_y rho : float64),
        (x, y) ∉ [(0, 0); (0, 1); (1, 0); (1, 1)]%Z ->
        rho_correction x y lambda_x mu_y rho = Fin 1).
Proof.
  repeat split; try (cbn; f_equal; lra).
  intros; now apply rho_correction_otherwise.
Qed.

Lemma C1_rho_correction_piecewise_witness :
  rho_correction 0 0 (Fin 2) (Fin 3) (Fin (/ 12)) = Fin (1 - 2 * 3 * / 12)
  /\ rho_correction 3 1 PosInf NaN (Fin 5) = Fin 1.
Proof.
  destruct (C1_rho_correction_piecewise 2 3 (/ 12))
    as (H00 & _ & _ & _ & Hother).
  split; [exact H00 |].
  apply Hother. rewrite !elem_of_cons, elem_of_nil.
  intros [? | [? | [? | [? | []]]]]; discriminate.
Defined.

(** ** The range of [np.exp] *)

Lemma exp_le (a b : R) : (a <= b)%R -> (exp a <= exp b)%R.
Proof.
  intros [Hlt | ->]; [left; now apply exp_increasing | apply Rle_refl].
Qed.

Lemma exp_nat_mult (n : nat) (x : R) : exp (INR n * x) = (exp x ^ n)%R.
Proof.
  induction n as [| n IH]; [rewrite Rmult_0_l; apply exp_0 |].
  rewrite S_INR, Rmult_plus_distr_r, Rmult_1_l, exp_plus, IH.
  cbn [pow]. apply Rmult_comm.
Qed.

Lemma two_le_exp : (2 <= exp (9 / 10))%R.
Proof.
  replace (9 / 10)%R with (9 / 20 + 9 / 20)%R by lra. rewrite exp_plus.
  pose proof (exp_ineq1 (9 / 20)) as Hlow.
  assert (1 + 9 / 20 < exp (9 / 20))%R by (apply Hlow; lra). nra.
Qed.

Lemma pow2_le_exp (n : nat) (r : R) :
  (INR n * (9 / 10) <= r)%R -> (2 ^ n <= exp r)%R.
Proof.
  intros Hr. apply Rle_trans with (exp (INR n * (9 / 10))).
  - rewrite exp_nat_mult. apply pow_incr. split; [lra | apply two_le_exp].
  - now apply exp_le.
Qed.

Lemma exp_le_pow3 (n : nat) (r : R) :
  (r <= INR n)%R -> (exp r <= 3 ^ n)%R.
Proof.
  intros Hr. apply Rle_trans with (exp (INR n * 1)).
  - apply exp_le. lra.
  - rewrite exp_nat_mult. apply pow_incr.
    split; [left; apply exp_pos | apply exp_le_3].
Qed.

Lemma pow3_lt_pow2 : (3 ^ 600 < 2 ^ 1024)%R /\ (3 ^ 600 < 2 ^ 1075)%R.
Proof. split; rewrite !pow_IZR; apply IZR_lt; vm_compute; reflexivity. Qed.

Lemma INR_600 : INR 600 = 600%R.
Proof. rewrite INR_IZR_INZ. reflexivity. Qed.

Lemma INR_1075 : INR 1075 = 1075%R.
Proof. rewrite INR_IZR_INZ. reflexivity. Qed.

(** Arguments of -1000 or less underflow. *)
Lemma np_exp_underflow (r : R) : (r <= -1000)%R -> np_exp (Fin r) = Fin 0.
Proof.
  intros Hr. unfold np_exp.
  destruct (Rle_dec (exp r) underflow_bound) as [_ | Hbig]; [reflexivity |].
  exfalso. apply Hbig. unfold underflow_bound.
  replace r with (- - r)%R by lra. rewrite exp_Ropp.
  apply Rinv_le_contravar; [apply pow_lt; lra |].
  apply pow2_le_exp. rewrite INR_1075. lra.
Qed.

(** Arguments between -600 and 600 neither underflow nor overflow. *)
Lemma np_exp_regular (r : R) :
  (-600 <= r <= 600)%R -> np_exp (Fin r) = Fin (exp r).
Proof.
  intros [Hlow Hhigh]. destruct pow3_lt_pow2 as [H1024 H1075].
  assert (exp r <= 3 ^ 600)%R as Hup
    by (apply exp_le_pow3; rewrite INR_600; exact Hhigh).
  assert (exp (- r) <= 3 ^ 600)%R as Hdown
    by (apply exp_le_pow3; rewrite INR_600; lra).
  unfold np_exp.
  destruct (Rle_dec (exp r) underflow_bound) as [Hsmall | _].
  - exfalso. unfold underflow_bound in Hsmall.
    pose proof (exp_pos r) as Hpos.
    assert (0 < 2 ^ 1075)%R as Hp by (apply pow_lt; lra).
    assert (exp r * exp (- r) = 1)%R as Hone
      by (rewrite <- exp_plus, Rplus_opp_r; apply exp_0).
    assert (/ 2 ^ 1075 * 2 ^ 1075 = 1)%R as Hinv by (apply Rinv_l; lra).
    assert (exp r * 2 ^ 1075 <= 1)%R by nra.
    assert (exp r * exp (- r) < exp r * 2 ^ 1075)%R
      by (apply Rmult_lt_compat_l; lra).
    lra.
  - destruct (Rle_dec overflow_bound (exp r)) as [Hbig | _]; [| reflexivity].
    exfalso. unfold overflow_bound in Hbig. lra.
Qed.

(** On a finite argument [np.exp] gives a number that is not negative, or
    +inf. *)
Lemma np_exp_not_negative (r : R) :
  np_exp (Fin r) = PosInf
  \/ exists t : R, np_exp (Fin r) = Fin t /\ (0 <= t)%R.
Proof.
  unfold np_exp.
  destruct (Rle_dec (exp r) underflow_bound);
    [right; exists 0%R; split; [reflexivity | lra] |].
  destruct (Rle_dec overflow_bound (exp r)); [now left |].
  right. exists (exp r). split; [reflexivity | left; apply exp_pos].
Qed.

(** ** The expected rates *)

(** C7 (counterexample): with the finite home attack -1000 and all other
    parameters 0 the home rate is np.exp(-1000), which is 0: not strictly
    positive. *)
Lemma C7_counterexample :
  expected_rates (Fin (-1000)) (Fin 0) (Fin 0) (Fin 0) (Fin 0)
  = (Fin 0, Fin 1)
  /\ ~ exists t : R,
        fst (expected_rates (Fin (-1000)) (Fin 0) (Fin 0) (Fin 0) (Fin 0))
        = Fin t
        /\ (0 < t)%R.
Proof.
  assert (expected_rates (Fin (-1000)) (Fin 0) (Fin 0) (Fin 0) (Fin 0)
          = (Fin 0, Fin 1)) as Hrates.
  { unfold expected_rates. cbn [fadd]. f_equal.
    - apply np_exp_underflow. lra.
    - rewrite np_exp_regular by lra. rewrite Rplus_0_r, exp_0. reflexivity. }
  split; [exact Hrates |].
  rewrite Hrates. cbn [fst]. intros (t & Ht & Hpos).
  injection Ht as <-. lra.
Qed.

(** C7 (amended): for finite attack, defence and home-advantage values each
    of the two rates computed by [dc_log_like] is a float that is neither
    NaN nor negative: a number that is at least 0, or +inf.  A rate is a
    strictly positive number when its computed log-rate lies between -600
    and 600, and it is 0 when the log-rate is -1000 or less. *)
Theorem C7_expected_rates_not_negative
  (alpha_x beta_x alpha_y beta_y gamma : R) :
  exists lambda mu : float64,
    expected_rates (Fin alpha_x) (Fin beta_x) (Fin alpha_y) (Fin beta_y)
                   (Fin gamma) = (lambda, mu)
    /\ (lambda = PosInf \/ exists t : R, lambda = Fin t /\ (0 <= t)%R)
    /\ (mu = PosInf \/ exists t : R, mu = Fin t /\ (0 <= t)%R)
    /\ (forall s : R,
          (Fin alpha_x + Fin beta_y + Fin gamma)%f64 = Fin s ->
          ((-600 <= s <= 600)%R ->
           exists t : R, lambda = Fin t /\ (0 < t)%R)
          /\ ((s <= -1000)%R -> lambda = Fin 0))
    /\ (forall u : R,
          (Fin alpha_y + Fin beta_x)%f64 = Fin u ->
          ((-600 <= u <= 600)%R -> exists t : R, mu = Fin t /\ (0 < t)%R)
          /\ ((u <= -1000)%R -> mu = Fin 0)).
Proof.
  eexists _, _. split; [reflexivity |].
  split; [apply np_exp_not_negative |].
  split; [apply np_exp_not_negative |].
  split.
  - intros s Hs. rewrite Hs. split.
    + intros Hin. exists (exp s).
      split; [now apply np_exp_regular | apply exp_pos].
    + apply np_exp_underflow.
  - intros u Hu. rewrite Hu. split.
    + intros Hin. exists (exp u).
      split; [now apply np_exp_regular | apply exp_pos].
    + apply np_exp_underflow.
Qed.

Lemma C7_expected_rates_not_negative_witness :
  (exists t : R,
     fst (expected_rates (Fin 1) (Fin 0) (Fin 0) (Fin 2) (Fin 3)) = Fin t
     /\ (0 < t)%R)
  /\ fst (expected_rates (Fin (-1000)) (Fin 0) (Fin 0) (Fin 0) (Fin 0))
     = Fin 0.
Proof.
  split.
  - destruct (C7_expected_rates_not_negative 1 0 0 2 3)
      as (lambda & mu & Hrates & _ & _ & Hlambda & _).
    rewrite Hrates. cbn [fst].
    apply (Hlambda (1 + 2 + 3)%R); [reflexivity | lra].
  - destruct (C7_expected_rates_not_negative (-1000) 0 0 0 0)
      as (lambda & mu & Hrates & _ & _ & Hlambda & _).
    rewrite Hrates. cbn [fst].
    apply (Hlambda (-1000 + 0 + 0)%R); [reflexivity | lra].
Defined.

(** ** Time weighting *)

(** C9: the weight is exp(-xi * elapsed_days); with xi = 0 it is 1 for
    every elapsed time; with xi > 0 it is 1 at elapsed time 0 and strictly
    decreasing in the elapsed time. *)
Theorem C9_time_weight :
  (forall xi d : R, time_weight xi d = exp (- (xi * d)))
  /\ (forall d : R, time_weight 0 d = 1%R)
  /\ (forall xi : R, (0 < xi)%R ->
        time_weight xi 0 = 1%R
        /\ forall d1 d2 : R, (0 <= d1)%R -> (d1 < d2)%R ->
             (time_weight xi d2 < time_weight xi d1)%R).
Proof.
  unfold time_weight. split; [| split].
  - intros xi d. f_equal. lra.
  - intros d. replace (- 0 * d)%R with 0%R by lra. apply exp_0.
  - intros xi Hxi. split.
    + replace (- xi * 0)%R with 0%R by lra. apply exp_0.
    + intros d1 d2 _ Hlt. apply exp_increasing. nra.
Qed.

Lemma C9_time_weight_witness :
  time_weight 0 7 = 1%R
  /\ time_weight (/ 100) 0 = 1%R
  /\ (time_weight (/ 100) 30 < time_weight (/ 100) 7)%R.
Proof.
  destruct C9_time_weight as (_ & Hzero & Hpos).
  split; [apply Hzero |].
  assert (0 < / 100)%R as Hxi by (apply Rinv_0_lt_compat, IZR_lt; lia).
  destruct (Hpos (/ 100)%R Hxi) as [Hstart Hdec].
  split; [exact Hstart |].
  apply Hdec; [apply IZR_le | apply IZR_lt]; lia.
Defined.

(** ** The objective *)

Lemma unpack_last_two_ok (params : list float64) :
  (2 <= length params)%nat ->
  exists rho gamma, unpack_last_two params = inr (rho, gamma).
Proof.
  intros Hlen. unfold unpack_last_two.
  pose proof (length_drop params (length params - 2)) as Hd.
  destruct (drop (length params - 2) params) as [| rho [| gamma [| ? ?]]];
    simpl in Hd; try lia.
  eauto.
Qed.

(** On a table with at least one row the objective raises TypeError at its
    first row, before any score or coefficient is read. *)
Lemma estimate_parameters_raises (row : match_record) (rest : DataFrame)
  (teams : list string) (n_teams : nat) (params : list float64) :
  (2 <= length params)%nat ->
  estimate_parameters (row :: rest) teams n_teams params
  = inl (TypeError "tuple indices must be integers or slices, not str").
Proof.
  intros Hlen. unfold estimate_parameters.
  destruct (unpack_last_two_ok params Hlen) as (rho & gamma & ->).
  reflexivity.
Qed.

(** Whatever the vector, the objective returns no number on a table with at
    least one row: an optimizer that evaluates its objective cannot return
    on such a table. *)
Lemma estimate_parameters_never_returns (row : match_record)
  (rest : DataFrame) (teams : list string) (n_teams : nat)
  (params : list float64) :
  exists e, estimate_parameters (row :: rest) teams n_teams params = inl e.
Proof.
  unfold estimate_parameters.
  destruct (unpack_last_two params) as [e | [rho gamma]]; simpl; eauto.
Qed.

(** On the empty table the objective is [-sum([])], that is 0. *)
Lemma estimate_parameters_empty (teams : list string) (n_teams : nat)
  (params : list float64) :
  (2 <= length params)%nat ->
  estimate_parameters [] teams n_teams params = inr (Fin (- 0)).
Proof.
  intros Hlen. unfold estimate_parameters.
  destruct (unpack_last_two_ok params Hlen) as (rho & gamma & ->).
  reflexivity.
Qed.

(** C2 (evaluation at the failing input): on the 2-team table and a full
    parameter vector the objective does not return the negated sum of the
    per-match log-likelihoods: it raises TypeError. *)
Theorem C2_objective_raises_TypeError :
  let teams := sorted_home_teams two_team_dataset in
  let params := [Fin 0; Fin 0; Fin 0; Fin 0; Fin 0; Fin 0] in
  estimate_parameters two_team_dataset teams (length teams) params
  = inl (TypeError "tuple indices must be integers or slices, not str")
  /\ estimate_parameters two_team_dataset teams (length teams) params
     <> inr (Spec.negative_log_likelihood two_team_dataset teams params).
Proof.
  intros teams params.
  assert (estimate_parameters two_team_dataset teams (length teams) params
          = inl (TypeError "tuple indices must be integers or slices, not str"))
    as Hraise by (apply estimate_parameters_raises; simpl; lia).
  split; [exact Hraise | rewrite Hraise; discriminate].
Qed.

(** ** Points where the logarithm is undefined *)

Lemma np_log_nonpositive (t : R) :
  (t <= 0)%R -> np_log (Fin t) = NaN \/ np_log (Fin t) = NegInf.
Proof.
  intros Ht. unfold np_log.
  destruct (Rlt_dec 0 t); [lra |]. destruct (Rlt_dec t 0); auto.
Qed.

Lemma np_log_zero : np_log (Fin 0) = NegInf.
Proof.
  unfold np_log.
  destruct (Rlt_dec 0 0); [lra |]. destruct (Rlt_dec 0 0); [lra | reflexivity].
Qed.

Lemma fadd_not_finite_l (a b : float64) :
  ~ is_finite a -> ~ is_finite (a + b)%f64.
Proof. destruct a, b; simpl; tauto. Qed.

Lemma fadd_not_finite_r (a b : float64) :
  ~ is_finite b -> ~ is_finite (a + b)%f64.
Proof. destruct a, b; simpl; tauto. Qed.

Lemma fneg_not_finite (a : float64) :
  ~ is_finite a -> ~ is_finite (- a)%f64.
Proof. destruct a; simpl; tauto. Qed.

Lemma fold_fadd_not_finite_acc (l : list float64) (acc : float64) :
  ~ is_finite acc -> ~ is_finite (fold_left fadd l acc).
Proof.
  revert acc. induction l as [| v l IH]; intros acc Hacc; simpl; [exact Hacc |].
  apply IH. now apply fadd_not_finite_l.
Qed.

Lemma py_sum_not_finite (l : list float64) (v : float64) :
  v ∈ l -> ~ is_finite v -> ~ is_finite (py_sum l).
Proof.
  unfold py_sum. generalize (Fin 0).
  induction l as [| w l IH]; intros acc Hin Hv; [by apply elem_of_nil in Hin |].
  apply elem_of_cons in Hin as [<- | Hin]; simpl.
  - apply fold_fadd_not_finite_acc. now apply fadd_not_finite_r.
  - now apply IH.
Qed.

Lemma expected_rates_zero :
  expected_rates (Fin 0) (Fin 0) (Fin 0) (Fin 0) (Fin 0) = (Fin 1, Fin 1).
Proof.
  unfold expected_rates. cbn [fadd].
  rewrite !np_exp_regular by lra. rewrite !Rplus_0_r, exp_0. reflexivity.
Qed.

Lemma negative_tau_value :
  rho_correction 0 0 (Fin 1) (Fin 1) (Fin 2) = Fin (-1).
Proof. cbn. f_equal. lra. Qed.

(** C4 (counterexample): with attack and defence 0, gamma 0 and rho 2, the
    0-0 match has rates 1 and 1 and correction factor -1, its log-likelihood
    is NaN, and the objective returns no finite value for the table. *)
Lemma C4_counterexample :
  let teams := sorted_home_teams low_score_dataset in
  expected_rates (Fin 0) (Fin 0) (Fin 0) (Fin 0) (Fin 0) = (Fin 1, Fin 1)
  /\ rho_correction 0 0 (Fin 1) (Fin 1) (Fin 2) = Fin (-1)
  /\ dc_log_like 0 0 (Fin 0) (Fin 0) (Fin 0) (Fin 0) (Fin 2) (Fin 0) = NaN
  /\ ~ exists penalty : R,
         estimate_parameters low_score_dataset teams (length teams)
                             negative_tau_params
         = inr (Fin penalty).
Proof.
  intros teams. split; [apply expected_rates_zero |].
  split; [apply negative_tau_value |]. split.
  - unfold dc_log_like. rewrite expected_rates_zero, negative_tau_value.
    unfold np_log at 1.
    destruct (Rlt_dec 0 (-1)); [lra |]. destruct (Rlt_dec (-1) 0); [| lra].
    reflexivity.
  - intros [penalty Hret]. unfold low_score_dataset in Hret.
    rewrite estimate_parameters_raises in Hret by (simpl; lia).
    discriminate.
Qed.

(** C4 (amended): the code has no penalty.  When the correction factor of a
    match is not positive, or one of its two Poisson masses is 0, the
    log-likelihood [dc_log_like] of that match is not a finite number (it is
    NaN or an infinity), and so is the negated sum of every list of
    per-match values that holds it: nothing replaces it by a finite value. *)
Theorem C4_no_penalty (x y : Z)
  (alpha_x beta_x alpha_y beta_y rho gamma lambda_x mu_y : float64) :
  expected_rates alpha_x beta_x alpha_y beta_y gamma = (lambda_x, mu_y) ->
  (exists t : R, rho_correction x y lambda_x mu_y rho = Fin t /\ (t <= 0)%R)
  \/ poisson_pmf x lambda_x = Fin 0
  \/ poisson_pmf y mu_y = Fin 0 ->
  ~ is_finite (dc_log_like x y alpha_x beta_x alpha_y beta_y rho gamma)
  /\ forall log_like : list float64,
       dc_log_like x y alpha_x beta_x alpha_y beta_y rho gamma ∈ log_like ->
       ~ is_finite (- py_sum log_like)%f64.
Proof.
  intros Hrates Hbad.
  assert (~ is_finite (dc_log_like x y alpha_x beta_x alpha_y beta_y rho gamma))
    as Hnf.
  { unfold dc_log_like. rewrite Hrates.
    destruct Hbad as [(t & -> & Ht) | [-> | ->]].
    - apply fadd_not_finite_l, fadd_not_finite_l.
      destruct (np_log_nonpositive t Ht) as [-> | ->]; simpl; tauto.
    - apply fadd_not_finite_l, fadd_not_finite_r.
      rewrite np_log_zero. simpl; tauto.
    - apply fadd_not_finite_r. rewrite np_log_zero. simpl; tauto. }
  split; [exact Hnf |].
  intros log_like Hin. eapply fneg_not_finite, py_sum_not_finite; eauto.
Qed.

Lemma C4_no_penalty_witness :
  ~ is_finite (dc_log_like 0 0 (Fin 0) (Fin 0) (Fin 0) (Fin 0) (Fin 2) (Fin 0))
  /\ ~ is_finite
       (- py_sum
            [Fin 3;
             dc_log_like 0 0 (Fin 0) (Fin 0) (Fin 0) (Fin 0) (Fin 2) (Fin 0)])%f64.
Proof.
  destruct (C4_no_penalty 0 0 (Fin 0) (Fin 0) (Fin 0) (Fin 0) (Fin 2) (Fin 0)
              (Fin 1) (Fin 1) expected_rates_zero) as [Hone Hsum].
  - left. exists (-1)%R. split; [apply negative_tau_value | lra].
  - split; [exact Hone |]. apply Hsum.
    apply list_elem_of_further, list_elem_of_here.
Defined.

(** ** Runs of the solver *)

Section SolverRuns.

Variable dataset : DataFrame.
Variable debug : bool.
Variable init_vals : option (list float64).
Variables options kwargs : gmap string pyvalue.
Variable constraints : list Constraint.

Let teams := sorted_home_teams dataset.
Let call_at := minimize_call_of dataset options constraints kwargs.

Lemma solve_parameters_mismatch :
  sorted_home_teams dataset <> sorted_away_teams dataset ->
  solve_parameters dataset debug init_vals options constraints kwargs
  = Raise (ValueError "Something's not right").
Proof.
  intros Hne. unfold solve_parameters, array_equal.
  fold (sorted_home_teams dataset) (sorted_away_teams dataset).
  rewrite bool_decide_eq_false_2 by exact Hne. reflexivity.
Qed.

Lemma solve_parameters_match :
  sorted_home_teams dataset = sorted_away_teams dataset ->
  solve_parameters dataset debug init_vals options constraints kwargs
  = match init_vals with
    | Some v =>
        Minimize (call_at v) (fun r => Ret (returned_value debug teams r))
    | None =>
        RandomUniform (Fin 0) (Fin 1) (length teams) (fun attack =>
        RandomUniform (Fin 0) (Fin (-1)) (length teams) (fun defence =>
        Minimize (call_at (attack ++ defence ++ [Fin 0; Fin 1]))
                 (fun r => Ret (returned_value debug teams r))))
    end.
Proof.
  intros Heq. unfold solve_parameters, array_equal.
  fold (sorted_home_teams dataset) (sorted_away_teams dataset).
  rewrite bool_decide_eq_true_2 by exact Heq.
  unfold returned_value, call_at, minimize_call_of, teams.
  destruct init_vals, debug; reflexivity.
Qed.

Lemma exec_minimize_then_return (start : list float64) (tr : list event)
  (res : result solver_output) :
  exec (Minimize (call_at start)
                 (fun r => Ret (returned_value debug teams r))) tr res
  <-> exists out,
        tr = [EvMinimize (call_at start) out]
        /\ res = rbind out (fun r => inr (returned_value debug teams r)).
Proof.
  split.
  - intros Hrun. inversion Hrun as [| | | ? ? r tr' res' Hk | ? ? e]; subst.
    + inversion Hk; subst. exists (inr r). split; reflexivity.
    + exists (inl e). split; reflexivity.
  - intros (out & -> & ->). destruct out as [e | r]; simpl.
    + apply exec_Minimize_raises.
    + apply exec_Minimize_returns, exec_Ret.
Qed.

(** Every run of the solver on a table that passes the roster check: the
    draws of the initial vector, one call to the optimizer, and then the
    optimizer's exception or the value built from its result. *)
Lemma exec_solve_parameters (tr : list event) (res : result solver_output) :
  sorted_home_teams dataset = sorted_away_teams dataset ->
  exec (solve_parameters dataset debug init_vals options constraints kwargs)
       tr res
  <-> exists pre start out,
        initial_draws (length teams) init_vals pre start
        /\ tr = pre ++ [EvMinimize (call_at start) out]
        /\ res = rbind out (fun r => inr (returned_value debug teams r)).
Proof.
  intros Heq. rewrite (solve_parameters_match Heq).
  unfold initial_draws. destruct init_vals as [v |].
  - rewrite exec_minimize_then_return. split.
    + intros (out & -> & ->). exists [], v, out. auto.
    + intros (pre & start & out & [-> ->] & -> & ->). eauto.
  - split.
    + intros Hrun.
      inversion Hrun as [| | ? ? ? ? attack tr1 ? Hla Hrun1 | |]; subst.
      inversion Hrun1 as [| | ? ? ? ? defence tr2 ? Hld Hrun2 | |]; subst.
      apply exec_minimize_then_return in Hrun2 as (out & -> & ->).
      exists [EvUniform (Fin 0) (Fin 1) (length teams) attack;
              EvUniform (Fin 0) (Fin (-1)) (length teams) defence],
             (attack ++ defence ++ [Fin 0; Fin 1]), out.
      split; [| split; reflexivity]. exists attack, defence. auto.
    + intros (pre & start & out & (attack & defence & Hla & Hld & -> & ->)
              & -> & ->).
      simpl. apply exec_RandomUniform; [exact Hla |].
      apply exec_RandomUniform; [exact Hld |].
      apply exec_minimize_then_return. eauto.
Qed.


Lemma solve_parameters_calls_minimize (tr : list event)
  (res : result solver_output) :
  sorted_home_teams dataset = sorted_away_teams dataset ->
  exec (solve_parameters dataset debug init_vals options constraints kwargs)
       tr res ->
  calls_minimize tr.
Proof.
  intros Heq Hrun.
  apply exec_solve_parameters in Hrun as (pre & start & out & _ & -> & _);
    [| exact Heq].
  eexists _, out. rewrite elem_of_app, list_elem_of_singleton. right. reflexivity.
Qed.

End SolverRuns.

(** ** The roster: distinct names, sorted *)

Lemma str_le_cases (a b : string) :
  str_le a b <-> a = b \/ OrderedTypeEx.String_as_OT.lt a b.
Proof.
  unfold str_le, String.leb.
  pose proof (OrderedTypeEx.String_as_OT.cmp_eq a b) as Heq.
  pose proof (OrderedTypeEx.String_as_OT.cmp_lt a b) as Hlt.
  unfold OrderedTypeEx.String_as_OT.cmp in *.
  destruct (String.compare a b); split; intros H; try tauto; try discriminate.
  destruct H as [H | H]; [apply Heq in H | apply Hlt in H]; discriminate.
Qed.

#[local] Instance str_le_trans : Transitive str_le.
Proof.
  intros a b c Hab Hbc. apply str_le_cases in Hab, Hbc. apply str_le_cases.
  destruct Hab as [-> | Hab]; [tauto |].
  destruct Hbc as [<- | Hbc]; [tauto |].
  right. eapply OrderedTypeEx.String_as_OT.lt_trans; eauto.
Qed.

#[local] Instance str_le_antisym : AntiSymm eq str_le.
Proof. intros a b. apply String.leb_antisym. Qed.

Lemma str_le_total (a b : string) : str_le a b \/ str_le b a.
Proof. apply String.leb_total. Qed.

Lemma sort_insert_perm (s : string) (l : list string) :
  sort_insert s l ≡ₚ s :: l.
Proof.
  induction l as [| t l IH]; simpl; [reflexivity |].
  destruct (String.leb s t); [reflexivity |].
  rewrite IH. apply Permutation_swap.
Qed.

Lemma np_sort_perm (l : list string) : np_sort l ≡ₚ l.
Proof.
  induction l as [| s l IH]; simpl; [reflexivity |].
  rewrite sort_insert_perm. now constructor.
Qed.

Lemma sort_insert_sorted (s : string) (l : list string) :
  Sorted str_le l -> Sorted str_le (sort_insert s l).
Proof.
  induction 1 as [| t l Hs IH Hhd]; simpl; [repeat constructor |].
  destruct (String.leb s t) eqn:Hst.
  - repeat constructor; assumption.
  - assert (str_le t s) as Hts
      by (destruct (str_le_total s t) as [H | H]; [congruence | exact H]).
    constructor; [exact IH |].
    destruct l as [| u l]; simpl; [now constructor |].
    inversion Hhd; subst.
    destruct (String.leb s u); now constructor.
Qed.

Lemma np_sort_sorted (l : list string) : Sorted str_le (np_sort l).
Proof.
  induction l as [| s l IH]; simpl; [constructor |].
  now apply sort_insert_sorted.
Qed.

Lemma elem_of_unique_from (seen l : list string) (s : string) :
  s ∈ unique_from seen l <-> s ∈ l /\ s ∉ seen.
Proof.
  revert seen. induction l as [| t l IH]; intros seen; simpl.
  - rewrite elem_of_nil. tauto.
  - case_bool_decide as Hseen.
    + rewrite IH, elem_of_cons. split; [tauto |].
      intros [[-> | Hin] Hns]; tauto.
    + rewrite !elem_of_cons, IH, not_elem_of_cons.
      destruct (decide (s = t)) as [-> | Hne]; tauto.
Qed.

Lemma NoDup_unique_from (seen l : list string) : NoDup (unique_from seen l).
Proof.
  revert seen. induction l as [| t l IH]; intros seen; simpl; [constructor |].
  case_bool_decide; [apply IH |].
  constructor; [| apply IH].
  rewrite elem_of_unique_from, not_elem_of_cons. tauto.
Qed.

Lemma elem_of_roster (l : list string) (s : string) :
  s ∈ np_sort (unique l) <-> s ∈ l.
Proof.
  rewrite np_sort_perm. unfold unique. rewrite elem_of_unique_from.
  rewrite elem_of_nil. tauto.
Qed.

Lemma NoDup_roster (l : list string) : NoDup (np_sort (unique l)).
Proof. rewrite np_sort_perm. apply NoDup_unique_from. Qed.

(** The roster check of the solver compares the two name sets: the sorted
    arrays of distinct names are equal exactly when every name that occurs
    as a home team occurs as an away team and conversely. *)
Lemma rosters_equal_iff_same_names (dataset : DataFrame) :
  sorted_home_teams dataset = sorted_away_teams dataset
  <-> forall team : string,
        team ∈ column_home_team dataset <-> team ∈ column_away_team dataset.
Proof.
  unfold sorted_home_teams, sorted_away_teams. split.
  - intros Heq team.
    rewrite <- (elem_of_roster (column_home_team dataset)),
            <- (elem_of_roster (column_away_team dataset)), Heq.
    reflexivity.
  - intros Hsame.
    apply (Sorted_unique str_le); try apply np_sort_sorted.
    apply NoDup_Permutation; try apply NoDup_roster.
    intros team. rewrite !elem_of_roster. apply Hsame.
Qed.

(** ** Dictionaries built from [zip] *)

Lemma dict_fold_absent {V} (pairs : list (string * V)) (acc : gmap string V)
  (key : string) :
  key ∉ pairs.*1 ->
  fold_left (fun d kv => <[kv.1 := kv.2]> d) pairs acc !! key = acc !! key.
Proof.
  revert acc. induction pairs as [| [k v] pairs IH]; intros acc Hout; simpl;
    [reflexivity |].
  rewrite fmap_cons, not_elem_of_cons in Hout. destruct Hout as [Hne Hout].
  rewrite IH by exact Hout. now apply lookup_insert_ne.
Qed.

Lemma dict_fold_lookup {V} (pairs : list (string * V)) (acc : gmap string V)
  (i : nat) (key : string) (v : V) :
  NoDup pairs.*1 -> pairs !! i = Some (key, v) ->
  fold_left (fun d kv => <[kv.1 := kv.2]> d) pairs acc !! key = Some v.
Proof.
  revert acc i. induction pairs as [| [k w] pairs IH]; intros acc i Hnd Hi;
    [discriminate |].
  rewrite fmap_cons in Hnd. apply NoDup_cons in Hnd as [Hfresh Hnd].
  destruct i as [| i]; simpl in *.
  - injection Hi as -> ->.
    rewrite dict_fold_absent by exact Hfresh. apply lookup_insert_eq.
  - eapply IH; eauto.
Qed.


(** ** The names of the returned dictionary *)

#[local] Instance append_inj (prefix : string) : Inj eq eq (String.append prefix).
Proof.
  intros a b. induction prefix as [| c prefix IH]; simpl; [auto |].
  intros H. injection H as H. auto.
Qed.




Lemma param_names_rho (teams : list string) :
  param_names teams !! (2 * length teams) = Some "rho".
Proof.
  unfold param_names.
  rewrite lookup_app_r by (rewrite length_fmap; lia).
  rewrite lookup_app_r by (rewrite !length_fmap; lia).
  rewrite !length_fmap.
  replace (2 * length teams - length teams - length teams) with 0 by lia.
  reflexivity.
Qed.

Lemma param_names_home_adv (teams : list string) :
  param_names teams !! (2 * length teams + 1) = Some "home_adv".
Proof.
  unfold param_names.
  rewrite lookup_app_r by (rewrite length_fmap; lia).
  rewrite lookup_app_r by (rewrite !length_fmap; lia).
  rewrite !length_fmap.
  replace (2 * length teams + 1 - length teams - length teams) with 1 by lia.
  reflexivity.
Qed.

Lemma NoDup_param_names (teams : list string) :
  NoDup teams -> NoDup (param_names teams).
Proof.
  intros Hnd. unfold param_names.
  apply NoDup_app. split; [now apply (NoDup_fmap_2 _) |]. split.
  - intros name [a [-> _]]%list_elem_of_fmap.
    rewrite elem_of_app, list_elem_of_fmap, !elem_of_cons, elem_of_nil.
    intros [[d [Hd _]] | [H | [H | []]]]; discriminate.
  - apply NoDup_app. split; [now apply (NoDup_fmap_2 _) |]. split.
    + intros name [d [-> _]]%list_elem_of_fmap.
      rewrite !elem_of_cons, elem_of_nil.
      intros [H | [H | []]]; discriminate.
    + repeat constructor; rewrite ?elem_of_cons, ?elem_of_nil;
        [intros [H | []]; discriminate | tauto].
Qed.

(** ** What the solver returns *)

Lemma negative_score_dataset_rosters :
  sorted_home_teams negative_score_dataset
  = sorted_away_teams negative_score_dataset.
Proof. vm_compute. reflexivity. Qed.

Lemma two_team_dataset_rosters :
  sorted_home_teams two_team_dataset = sorted_away_teams two_team_dataset.
Proof. vm_compute. reflexivity. Qed.

(** C3: when the sorted array of distinct home-team names differs from that
    of the away-team names, the solver raises ValueError; the run makes no
    external call (no random draw, no call to the optimizer), and the
    solver has no other run. *)
Theorem C3_roster_mismatch_raises (dataset : DataFrame) (debug : bool)
  (init_vals : option (list float64)) (options : gmap string pyvalue)
  (constraints : list Constraint) (kwargs : gmap string pyvalue) :
  sorted_home_teams dataset <> sorted_away_teams dataset ->
  exec (solve_parameters dataset debug init_vals options constraints kwargs)
       [] (inl (ValueError "Something's not right"))
  /\ forall tr res,
       exec (solve_parameters dataset debug init_vals options constraints
                              kwargs) tr res ->
       tr = [] /\ res = inl (ValueError "Something's not right").
Proof.
  intros Hne. rewrite solve_parameters_mismatch by exact Hne.
  split; [constructor |].
  intros tr res Hrun. inversion Hrun; subst. auto.
Qed.

Lemma C3_roster_mismatch_raises_witness :
  sorted_home_teams one_match_dataset <> sorted_away_teams one_match_dataset
  /\ exec (solve_parameters one_match_dataset false None default_options
                            default_constraints ∅)
          [] (inl (ValueError "Something's not right")).
Proof.
  assert (sorted_home_teams one_match_dataset
          <> sorted_away_teams one_match_dataset) as Hne
    by (vm_compute; discriminate).
  split; [exact Hne |].
  apply (C3_roster_mismatch_raises one_match_dataset false None
           default_options default_constraints ∅ Hne).
Defined.

(** The same, stated on the names themselves: a name that plays at home but
    never away, or away but never at home, makes the solver raise. *)
Lemma solve_parameters_name_sets_differ (dataset : DataFrame) (debug : bool)
  (init_vals : option (list float64)) (options : gmap string pyvalue)
  (constraints : list Constraint) (kwargs : gmap string pyvalue) :
  ~ (forall team : string,
       team ∈ column_home_team dataset <-> team ∈ column_away_team dataset) ->
  solve_parameters dataset debug init_vals options constraints kwargs
  = Raise (ValueError "Something's not right").
Proof.
  intros Hdiff. apply solve_parameters_mismatch.
  now rewrite rosters_equal_iff_same_names.
Qed.

(** C10 (evaluation at the failing input): on the 2-team table with
    [debug=True] the objective handed to the optimizer raises TypeError at
    the initial vector.  The run in which the optimizer lets that exception
    out ends with the solver raising it, and it is the only run in which
    the optimizer evaluates its objective: the raw result object is never
    returned. *)
Theorem C10_debug_run_raises_TypeError :
  let solve :=
    solve_parameters two_team_dataset true (Some final_vector)
                     default_options default_constraints ∅ in
  let call :=
    minimize_call_of two_team_dataset default_options default_constraints ∅
                     final_vector in
  let err := TypeError "tuple indices must be integers or slices, not str" in
  objective call (x0 call) = inl err
  /\ exec solve [EvMinimize call (inl err)] (inl err)
  /\ optimizer_evaluates_objective [EvMinimize call (inl err)]
  /\ forall tr res,
       exec solve tr res ->
       optimizer_evaluates_objective tr ->
       tr = [EvMinimize call (inl err)] /\ res = inl err.
Proof.
  intros solve call err.
  assert (objective call (x0 call) = inl err) as Hobj
    by (apply estimate_parameters_raises; simpl; lia).
  split; [exact Hobj |]. split; [| split].
  - subst solve.
    rewrite solve_parameters_match by apply two_team_dataset_rosters.
    apply exec_Minimize_raises.
  - intros c out e Hin Hraise.
    apply list_elem_of_singleton in Hin. injection Hin as -> ->.
    congruence.
  - intros tr res Hrun Hfaithful.
    apply exec_solve_parameters in Hrun
      as (pre & start & out & [-> ->] & -> & ->);
      [| apply two_team_dataset_rosters].
    assert (out = inl err) as ->.
    { apply (Hfaithful call out err); [| exact Hobj].
      apply list_elem_of_here. }
    split; reflexivity.
Qed.




(** C8 (counterexample): the 2-team table with a home score of -3 passes
    the only check of the solver; with a caller-supplied initial vector the
    first thing the solver does is call the optimizer, and when that
    returns the solver returns a value.  No run raises before the
    optimization. *)
Lemma C8_counterexample :
  let solve :=
    solve_parameters negative_score_dataset false (Some final_vector)
                     default_options default_constraints ∅ in
  (exists m, m ∈ negative_score_dataset /\ (home_score m < 0)%Z)
  /\ (exists call value,
        exec solve [EvMinimize call (inr converged_result)] (inr value))
  /\ ~ exists e, exec solve [] (inl e).
Proof.
  intros solve. split; [| split].
  - exists (mkMatch "Team A" (-3) "Team B" 15).
    split; [apply list_elem_of_here | reflexivity].
  - subst solve.
    rewrite solve_parameters_match by apply negative_score_dataset_rosters.
    eexists _, _. apply exec_Minimize_returns, exec_Ret.
  - intros [e Hrun].
    apply solve_parameters_calls_minimize in Hrun as (call & out & Hin);
      [| apply negative_score_dataset_rosters].
    by apply elem_of_nil in Hin.
Qed.

(** C8 (amended): the solver validates the team names only.  On every table
    whose two rosters agree, whatever its scores are, every run consists of
    the draws of the initial vector and one call to the optimizer, and ends
    with the optimizer's exception or with the value built from its result:
    no run ends before the optimizer is called. *)
Theorem C8_scores_are_not_validated (dataset : DataFrame) (debug : bool)
  (init_vals : option (list float64)) (options : gmap string pyvalue)
  (constraints : list Constraint) (kwargs : gmap string pyvalue) :
  sorted_home_teams dataset = sorted_away_teams dataset ->
  let teams := sorted_home_teams dataset in
  let solve :=
    solve_parameters dataset debug init_vals options constraints kwargs in
  forall tr res,
    (exec solve tr res -> calls_minimize tr)
    /\ (exec solve tr res
        <-> exists pre start out,
              initial_draws (length teams) init_vals pre start
              /\ tr = pre ++ [EvMinimize
                                (minimize_call_of dataset options constraints
                                                  kwargs start) out]
              /\ res = rbind out
                         (fun r => inr (returned_value debug teams r))).
Proof.
  intros Heq teams solve tr res. split.
  - intros Hrun. eapply solve_parameters_calls_minimize; eauto.
  - apply exec_solve_parameters. exact Heq.
Qed.

Lemma C8_scores_are_not_validated_witness :
  let call :=
    minimize_call_of negative_score_dataset default_options
                     default_constraints ∅ final_vector in
  exec (solve_parameters negative_score_dataset true (Some final_vector)
                         default_options default_constraints ∅)
       [EvMinimize call (inr converged_result)]
       (inr (RawResult converged_result)).
Proof.
  intros call.
  assert (sorted_home_teams negative_score_dataset
          = sorted_away_teams negative_score_dataset) as Heq
    by (vm_compute; reflexivity).
  apply (C8_scores_are_not_validated negative_score_dataset true
           (Some final_vector) default_options default_constraints ∅ Heq).
  exists [], final_vector, (inr converged_result). repeat split.
Defined.

(** ** The normalisation constraint *)

(** C5 (evaluation at the failing input): the 2-team table has a roster of
    2 teams, and the solver hands its [constraints] argument to the
    optimizer as it is.  The default constraint sums the first 20 entries
    of the vector and compares with 20.  On the 6 entries of the 2-team
    vector it sums all of them: the vector with attack values 10 and 10
    satisfies it although its attack values sum to 20, not to 2, and the
    vector with attack values 1 and 1 (sum 2) violates it by -17. *)
Theorem C5_default_constraint_sums_first_20 :
  let teams := sorted_home_teams two_team_dataset in
  let heavy := [Fin 10; Fin 10; Fin 0; Fin 0; Fin 0; Fin 0] in
  let normalised := [Fin 1; Fin 1; Fin 0; Fin 0; Fin 0; Fin 1] in
  length teams = 2%nat
  /\ (forall tr res,
        exec (solve_parameters two_team_dataset false (Some heavy)
                               default_options default_constraints ∅) tr res ->
        exists call out,
          tr = [EvMinimize call out]
          /\ call_constraints call = default_constraints)
  /\ (fun c => cfun c heavy) <$> default_constraints = [Fin 0]
  /\ py_sum (take (length teams) heavy) = Fin 20
  /\ py_sum (take (length teams) normalised) = Fin 2
  /\ (fun c => cfun c normalised) <$> default_constraints = [Fin (-17)].
Proof.
  intros teams heavy normalised.
  split; [vm_compute; reflexivity |]. split.
  { intros tr res Hrun.
    apply exec_solve_parameters in Hrun
      as (pre & start & out & [-> ->] & -> & _);
      [| apply two_team_dataset_rosters].
    eexists _, out. split; reflexivity. }
  assert (length teams = 2%nat) as -> by (vm_compute; reflexivity).
  repeat split; cbn; repeat f_equal; lra.
Qed.

(** * Further properties of the notebook's functions *)

(** ** Arithmetic of the float model *)

Lemma fmul_comm (a b : float64) : (a * b)%f64 = (b * a)%f64.
Proof. destruct a, b; simpl; try reflexivity. f_equal. apply Rmult_comm. Qed.



(** ** More on the score correction *)


(** X1: with rho = 0 and finite rates the correction factor is exactly 1 at
    every pair of scores other than 0-0, and at 0-0 too when the product of
    the two rates is a finite number.  With an infinite home rate the
    factor of a 0-0 result is NaN even for rho = 0. *)
Theorem X1_zero_rho_is_neutral :
  (forall (x y : Z) (l m : R),
     (x, y) <> (0, 0)%Z ->
     rho_correction x y (Fin l) (Fin m) (Fin 0) = Fin 1)
  /\ (forall l m p : R,
        (Fin l * Fin m)%f64 = Fin p ->
        rho_correction 0 0 (Fin l) (Fin m) (Fin 0) = Fin 1)
  /\ (forall m : R, rho_correction 0 0 PosInf (Fin m) (Fin 0) = NaN).
Proof.
  split; [| split].
  - intros x y l m Hne. unfold rho_correction.
    destruct (Z.eqb_spec x 0), (Z.eqb_spec x 1), (Z.eqb_spec y 0),
      (Z.eqb_spec y 1); subst; cbn; try congruence; f_equal; lra.
  - intros l m p Hp. unfold rho_correction. cbn [Z.eqb andb].
    rewrite Hp. cbn. f_equal. lra.
  - intros m. unfold rho_correction; simpl. unfold mul_inf.
    destruct (Rlt_dec 0 m); simpl; unfold mul_inf.
    + destruct (Rlt_dec 0 0); [lra |].
      destruct (Rlt_dec 0 0); [lra | reflexivity].
    + destruct (Rlt_dec m 0); simpl; [unfold mul_inf | reflexivity].
      destruct (Rlt_dec 0 0); [lra |].
      destruct (Rlt_dec 0 0); [lra | reflexivity].
Qed.

Lemma X1_zero_rho_is_neutral_witness :
  rho_correction 0 1 (Fin 2) (Fin 3) (Fin 0) = Fin 1
  /\ rho_correction 0 0 (Fin 2) (Fin 3) (Fin 0) = Fin 1.
Proof.
  destruct X1_zero_rho_is_neutral as (Hother & Hzero & _).
  split.
  - apply Hother. discriminate.
  - apply (Hzero 2 3 (2 * 3))%R. reflexivity.
Defined.

(** X2: the correction factor does not change when the two sides of a match
    are exchanged: scores and rates swapped together give the same factor,
    for all float arguments. *)
Theorem X2_rho_correction_symmetric (x y : Z) (lambda_x mu_y rho : float64) :
  rho_correction x y lambda_x mu_y rho = rho_correction y x mu_y lambda_x rho.
Proof.
  unfold rho_correction.
  destruct (Z.eqb_spec x 0), (Z.eqb_spec x 1), (Z.eqb_spec y 0),
    (Z.eqb_spec y 1); subst; cbn [andb]; try reflexivity; try lia.
  now rewrite (fmul_comm lambda_x mu_y).
Qed.

(** ** More on the per-match log-likelihood *)

Lemma np_log_pmf_negative_score (k : Z) (s : R) :
  (k < 0)%Z -> ~ is_finite (np_log (poisson_pmf k (np_exp (Fin s)))).
Proof.
  intros Hk.
  destruct (np_exp_not_negative s) as [-> | (t & -> & Ht)]; [simpl; tauto |].
  unfold poisson_pmf. destruct (Rlt_dec t 0); [simpl; tauto |].
  destruct (Z.ltb_spec k 0); [| lia].
  rewrite np_log_zero. simpl; tauto.
Qed.

Lemma poisson_pmf_zero_underflow (r : R) :
  (1000 <= r)%R -> poisson_pmf 0 (Fin r) = Fin 0.
Proof.
  intros Hr. unfold poisson_pmf.
  destruct (Rlt_dec r 0); [lra |]. cbn [Z.ltb Z.compare].
  destruct (Rlt_dec 0 r); [| lra].
  apply np_exp_underflow.
  change (INR (fact (Z.to_nat 0))) with 1%R. rewrite ln_1. lra.
Qed.

(** X5: finite parameters do not make the log-likelihood of a match finite.
    It is NaN or an infinity whenever a score is negative, and also for a
    score of 0 on a side whose computed rate is 1000 or more: the Poisson
    mass exp(-rate) underflows to 0 and its logarithm is -inf. *)
Theorem X5_log_likelihood_not_finite (x y : Z)
  (alpha_x beta_x alpha_y beta_y gamma : R) (rho : float64) :
  ((x < 0)%Z \/ (y < 0)%Z ->
   ~ is_finite (dc_log_like x y (Fin alpha_x) (Fin beta_x) (Fin alpha_y)
                            (Fin beta_y) rho (Fin gamma)))
  /\ (forall (lambda : R) (mu : float64),
        expected_rates (Fin alpha_x) (Fin beta_x) (Fin alpha_y) (Fin beta_y)
                       (Fin gamma) = (Fin lambda, mu) ->
        (1000 <= lambda)%R ->
        ~ is_finite (dc_log_like 0 y (Fin alpha_x) (Fin beta_x) (Fin alpha_y)
                                 (Fin beta_y) rho (Fin gamma)))
  /\ (forall (lambda : float64) (mu : R),
        expected_rates (Fin alpha_x) (Fin beta_x) (Fin alpha_y) (Fin beta_y)
                       (Fin gamma) = (lambda, Fin mu) ->
        (1000 <= mu)%R ->
        ~ is_finite (dc_log_like x 0 (Fin alpha_x) (Fin beta_x) (Fin alpha_y)
                                 (Fin beta_y) rho (Fin gamma))).
Proof.
  split; [| split].
  - intros [Hx | Hy]; unfold dc_log_like, expected_rates; cbn [fadd].
    + apply fadd_not_finite_l, fadd_not_finite_r.
      now apply np_log_pmf_negative_score.
    + apply fadd_not_finite_r. now apply np_log_pmf_negative_score.
  - intros lambda mu Hrates Hbig. unfold dc_log_like. rewrite Hrates.
    apply fadd_not_finite_l, fadd_not_finite_r.
    rewrite poisson_pmf_zero_underflow by exact Hbig.
    rewrite np_log_zero. simpl; tauto.
  - intros lambda mu Hrates Hbig. unfold dc_log_like. rewrite Hrates.
    apply fadd_not_finite_r.
    rewrite poisson_pmf_zero_underflow by exact Hbig.
    rewrite np_log_zero. simpl; tauto.
Qed.

Lemma X5_log_likelihood_not_finite_witness :
  ~ is_finite (dc_log_like (-1) 2 (Fin 0) (Fin 0) (Fin 0) (Fin 0)
                           (Fin 0) (Fin 0))
  /\ ~ is_finite (dc_log_like 0 2 (Fin 20) (Fin 0) (Fin 0) (Fin 0)
                              (Fin 0) (Fin 0)).
Proof.
  split.
  - apply (X5_log_likelihood_not_finite (-1) 2 0 0 0 0 0 (Fin 0)).
    left. lia.
  - destruct (X5_log_likelihood_not_finite 0 2 20 0 0 0 0 (Fin 0))
      as (_ & Hhome & _).
    apply (Hhome (exp (20 + 0 + 0))
                 (np_exp (Fin (0 + 0)))).
    + unfold expected_rates. cbn [fadd].
      rewrite (np_exp_regular (20 + 0 + 0)) by lra. reflexivity.
    + apply Rle_trans with (2 ^ 10)%R.
      * rewrite pow_IZR. apply IZR_le. vm_compute. discriminate.
      * apply pow2_le_exp.
        replace (INR 10) with 10%R by (rewrite INR_IZR_INZ; reflexivity).
        lra.
Defined.

(** X6: outside the four low-score results (0-0, 0-1, 1-0, 1-1) the
    log-likelihood of a match does not depend on rho at all, not even on
    rho being NaN. *)
Theorem X6_rho_only_matters_for_low_scores (x y : Z)
  (alpha_x beta_x alpha_y beta_y gamma rho rho' : float64) :
  (x, y) ∉ [(0, 0); (0, 1); (1, 0); (1, 1)]%Z ->
  dc_log_like x y alpha_x beta_x alpha_y beta_y rho gamma
  = dc_log_like x y alpha_x beta_x alpha_y beta_y rho' gamma.
Proof.
  intros Hout. unfold dc_log_like.
  destruct (expected_rates alpha_x beta_x alpha_y beta_y gamma) as [l m].
  now rewrite !rho_correction_otherwise.
Qed.

Lemma X6_rho_only_matters_for_low_scores_witness :
  dc_log_like 20 15 (Fin 1) (Fin 0) (Fin 1) (Fin 0) NaN (Fin 1)
  = dc_log_like 20 15 (Fin 1) (Fin 0) (Fin 1) (Fin 0) (Fin 0) (Fin 1).
Proof.
  apply X6_rho_only_matters_for_low_scores.
  rewrite !elem_of_cons, elem_of_nil.
  intros [? | [? | [? | [? | []]]]]; discriminate.
Defined.


(** ** More on the roster *)

Lemma roster_ext (l l' : list string) :
  (forall s : string, s ∈ l <-> s ∈ l') ->
  np_sort (unique l) = np_sort (unique l').
Proof.
  intros Hsame.
  apply (Sorted_unique str_le); try apply np_sort_sorted.
  apply NoDup_Permutation; try apply NoDup_roster.
  intros s. rewrite !elem_of_roster. apply Hsame.
Qed.

Lemma length_unique_from (seen l : list string) :
  length (unique_from seen l) <= length l.
Proof.
  revert seen. induction l as [| s l IH]; intros seen; simpl; [lia |].
  case_bool_decide; [specialize (IH seen) | specialize (IH (s :: seen))];
    simpl; lia.
Qed.

Lemma elem_of_column_home_team (dataset : DataFrame) (team : string) :
  team ∈ column_home_team dataset
  <-> exists m, m ∈ dataset /\ home_team m = team.
Proof.
  unfold column_home_team. rewrite list_elem_of_In, in_map_iff. split.
  - intros (m & Hteam & Hin). exists m. now rewrite list_elem_of_In.
  - intros (m & Hin & Hteam). exists m. now rewrite <- list_elem_of_In.
Qed.

(** X11: the roster the solver computes is in ascending string order, holds
    no name twice, holds exactly the names that occur as a home team, and
    has at most as many names as the table has rows. *)
Theorem X11_roster_invariants (dataset : DataFrame) :
  let teams := sorted_home_teams dataset in
  Sorted str_le teams
  /\ NoDup teams
  /\ (forall team : string,
        team ∈ teams <-> exists m, m ∈ dataset /\ home_team m = team)
  /\ length teams <= length dataset.
Proof.
  unfold sorted_home_teams. split; [apply np_sort_sorted |].
  split; [apply NoDup_roster |]. split.
  - intros team. rewrite elem_of_roster. apply elem_of_column_home_team.
  - rewrite np_sort_perm. unfold unique, column_home_team.
    etransitivity; [apply length_unique_from |]. now rewrite length_map.
Qed.

(** X12: the two rosters depend on the set of names only: a table with the
    same rows in another order, or with rows repeated, gives the same
    rosters, and so the same outcome of the roster check. *)
Theorem X12_roster_ignores_row_order (dataset dataset' : DataFrame) :
  (forall m : match_record, m ∈ dataset <-> m ∈ dataset') ->
  sorted_home_teams dataset = sorted_home_teams dataset'
  /\ sorted_away_teams dataset = sorted_away_teams dataset'.
Proof.
  intros Hrows. unfold sorted_home_teams, sorted_away_teams.
  split; apply roster_ext; intros s;
    unfold column_home_team, column_away_team;
    rewrite !list_elem_of_In, !in_map_iff;
    split; intros (m & Hteam & Hin); exists m; (split; [exact Hteam |]);
    apply list_elem_of_In, Hrows, list_elem_of_In; exact Hin.
Qed.

Lemma X12_roster_ignores_row_order_witness :
  sorted_home_teams
    [mkMatch "Team B" 18 "Team A" 16; mkMatch "Team A" 20 "Team B" 15;
     mkMatch "Team B" 18 "Team A" 16]
  = sorted_home_teams two_team_dataset.
Proof.
  apply (X12_roster_ignores_row_order
           [mkMatch "Team B" 18 "Team A" 16; mkMatch "Team A" 20 "Team B" 15;
            mkMatch "Team B" 18 "Team A" 16] two_team_dataset).
  intros m. unfold two_team_dataset.
  rewrite !elem_of_cons, !elem_of_nil. tauto.
Defined.

(** X13: the solver is the program that raises
    ValueError("Something's not right") exactly when some name occurs as a
    home team but not as an away team, or the other way round. *)
Theorem X13_raises_iff_name_sets_differ (dataset : DataFrame) (debug : bool)
  (init_vals : option (list float64)) (options : gmap string pyvalue)
  (constraints : list Constraint) (kwargs : gmap string pyvalue) :
  solve_parameters dataset debug init_vals options constraints kwargs
  = Raise (ValueError "Something's not right")
  <-> ~ (forall team : string,
           team ∈ column_home_team dataset <-> team ∈ column_away_team dataset).
Proof.
  split.
  - intros Hraise Hsame. apply rosters_equal_iff_same_names in Hsame.
    rewrite (solve_parameters_match _ _ _ _ _ _ Hsame) in Hraise.
    destruct init_vals; discriminate.
  - apply solve_parameters_name_sets_differ.
Qed.

(** ** More on the runs of the solver *)

(** X14: when no initial vector is given, on a table that passes the roster
    check every run draws n attack values from uniform(0, 1), then n defence
    values from uniform(0, -1), and calls the optimizer once, with the
    vector attack ++ defence ++ [0, 1]: it has 2n+2 entries, rho starts at 0
    in position 2n and gamma at 1 in position 2n+1. *)
Theorem X14_random_initial_vector (dataset : DataFrame) (debug : bool)
  (options : gmap string pyvalue) (constraints : list Constraint)
  (kwargs : gmap string pyvalue) (tr : list event)
  (res : result solver_output) :
  sorted_home_teams dataset = sorted_away_teams dataset ->
  exec (solve_parameters dataset debug None options constraints kwargs)
       tr res ->
  let n := length (sorted_home_teams dataset) in
  exists attack defence out,
    let start := attack ++ defence ++ [Fin 0; Fin 1] in
    length attack = n /\ length defence = n
    /\ tr = [EvUniform (Fin 0) (Fin 1) n attack;
             EvUniform (Fin 0) (Fin (-1)) n defence;
             EvMinimize (minimize_call_of dataset options constraints kwargs
                                          start) out]
    /\ length start = 2 * n + 2
    /\ start !! (2 * n) = Some (Fin 0)
    /\ start !! (2 * n + 1) = Some (Fin 1).
Proof.
  intros Heq Hrun n.
  apply exec_solve_parameters in Hrun
    as (pre & start & out & (attack & defence & Hla & Hld & -> & ->) & -> & _);
    [| exact Heq].
  exists attack, defence, out. fold n in Hla, Hld. cbv zeta.
  split; [exact Hla |]. split; [exact Hld |]. split; [reflexivity |].
  split; [| split].
  - rewrite !length_app. cbn [length]. lia.
  - rewrite lookup_app_r by lia. rewrite lookup_app_r by lia.
    rewrite Hla, Hld. replace (2 * n - n - n) with 0 by lia. reflexivity.
  - rewrite lookup_app_r by lia. rewrite lookup_app_r by lia.
    rewrite Hla, Hld. replace (2 * n + 1 - n - n) with 1 by lia. reflexivity.
Qed.

Lemma X14_random_initial_vector_witness :
  let attack := [Fin (/ 2); Fin (/ 4)] in
  let defence := [Fin (- / 2); Fin (- / 4)] in
  let start := attack ++ defence ++ [Fin 0; Fin 1] in
  let tr :=
    [EvUniform (Fin 0) (Fin 1) 2 attack;
     EvUniform (Fin 0) (Fin (-1)) 2 defence;
     EvMinimize (minimize_call_of two_team_dataset default_options
                                  default_constraints ∅ start)
                (inr capped_result)] in
  exec (solve_parameters two_team_dataset true None default_options
                         default_constraints ∅)
       tr (inr (RawResult capped_result))
  /\ length start = 6 /\ start !! 4 = Some (Fin 0)
  /\ start !! 5 = Some (Fin 1).
Proof.
  intros attack defence start tr.
  assert (sorted_home_teams two_team_dataset
          = sorted_away_teams two_team_dataset) as Heq
    by (vm_compute; reflexivity).
  assert (exec (solve_parameters two_team_dataset true None default_options
                                 default_constraints ∅)
               tr (inr (RawResult capped_result))) as Hrun.
  { rewrite solve_parameters_match by exact Heq.
    repeat (apply exec_RandomUniform; [vm_compute; reflexivity |]).
    apply exec_Minimize_returns, exec_Ret. }
  split; [exact Hrun |].
  destruct (X14_random_initial_vector two_team_dataset true default_options
              default_constraints ∅ tr _ Heq Hrun)
    as (attack' & defence' & out & _ & _ & Htr & Hlen & Hrho & Hgamma).
  injection Htr as <- <- _. auto.
Defined.

(** X15: when the caller gives an initial vector, on a table that passes
    the roster check every run consists of one call to the optimizer and
    nothing else: no random number is drawn, and the vector is handed over
    as it is, with the caller's options, constraints and keyword arguments,
    whatever its length. *)
Theorem X15_supplied_initial_vector (dataset : DataFrame) (debug : bool)
  (v : list float64) (options : gmap string pyvalue)
  (constraints : list Constraint) (kwargs : gmap string pyvalue)
  (tr : list event) (res : result solver_output) :
  sorted_home_teams dataset = sorted_away_teams dataset ->
  exec (solve_parameters dataset debug (Some v) options constraints kwargs)
       tr res ->
  exists call out,
    tr = [EvMinimize call out]
    /\ x0 call = v
    /\ call_options call = options
    /\ call_constraints call = constraints
    /\ call_kwargs call = kwargs.
Proof.
  intros Heq Hrun.
  apply exec_solve_parameters in Hrun
    as (pre & start & out & [-> ->] & -> & _); [| exact Heq].
  eexists _, out. repeat split.
Qed.

Lemma X15_supplied_initial_vector_witness :
  let tr :=
    [EvMinimize (minimize_call_of two_team_dataset default_options
                                  default_constraints ∅ [])
                (inl (not_enough_values 0))] in
  exec (solve_parameters two_team_dataset false (Some []) default_options
                         default_constraints ∅)
       tr (inl (not_enough_values 0))
  /\ exists call out, tr = [EvMinimize call out] /\ x0 call = [].
Proof.
  intros tr.
  assert (sorted_home_teams two_team_dataset
          = sorted_away_teams two_team_dataset) as Heq
    by (vm_compute; reflexivity).
  assert (exec (solve_parameters two_team_dataset false (Some [])
                                 default_options default_constraints ∅)
               tr (inl (not_enough_values 0)))
    as Hrun.
  { rewrite solve_parameters_match by exact Heq.
    apply exec_Minimize_raises. }
  split; [exact Hrun |].
  destruct (X15_supplied_initial_vector two_team_dataset false []
              default_options default_constraints ∅ tr _ Heq Hrun)
    as (call & out & Htr & Hx0 & _).
  exists call, out. auto.
Defined.

(** X16: on a table that passes the roster check the solver raises nothing
    of its own and catches nothing: a run ends with an exception exactly
    when the call to the optimizer raised it, and it is that exception,
    unchanged. *)
Theorem X16_optimizer_exception_propagates (dataset : DataFrame)
  (debug : bool) (init_vals : option (list float64))
  (options : gmap string pyvalue) (constraints : list Constraint)
  (kwargs : gmap string pyvalue) (tr : list event) (e : exn) :
  sorted_home_teams dataset = sorted_away_teams dataset ->
  exec (solve_parameters dataset debug init_vals options constraints kwargs)
       tr (inl e)
  <-> exists pre start,
        initial_draws (length (sorted_home_teams dataset)) init_vals pre start
        /\ tr = pre ++ [EvMinimize
                          (minimize_call_of dataset options constraints kwargs
                                            start) (inl e)].
Proof.
  intros Heq. rewrite (exec_solve_parameters _ _ _ _ _ _ _ _ Heq). split.
  - intros (pre & start & [e' | r] & Hdraws & -> & Hres); [| discriminate].
    injection Hres as ->. eauto.
  - intros (pre & start & Hdraws & ->). exists pre, start, (inl e). auto.
Qed.

Lemma X16_optimizer_exception_propagates_witness :
  exec (solve_parameters two_team_dataset false (Some final_vector)
                         default_options default_constraints ∅)
       [EvMinimize
          (minimize_call_of two_team_dataset default_options
                            default_constraints ∅ final_vector)
          (inl (TypeError "tuple indices must be integers or slices, not str"))]
       (inl (TypeError "tuple indices must be integers or slices, not str")).
Proof.
  assert (sorted_home_teams two_team_dataset
          = sorted_away_teams two_team_dataset) as Heq
    by (vm_compute; reflexivity).
  apply (X16_optimizer_exception_propagates two_team_dataset false
           (Some final_vector) default_options default_constraints ∅ _ _ Heq).
  exists [], final_vector. repeat split.
Defined.

(** ** More on the returned dictionary *)

Lemma fst_zip_take {A B} (l : list A) (k : list B) :
  (zip l k).*1 = take (length k) l.
Proof.
  revert k. induction l as [| a l IH]; intros [| b k]; simpl; try reflexivity.
  f_equal. apply IH.
Qed.

Lemma dict_lookup_absent {V} (keys : list string) (vals : list V)
  (key : string) :
  key ∉ keys -> dict (zip keys vals) !! key = None.
Proof.
  intros Hout. unfold dict. rewrite dict_fold_absent; [apply lookup_empty |].
  rewrite fst_zip_take. intros Hin. apply Hout.
  eapply elem_of_sublist; [exact Hin | apply sublist_take].
Qed.

(** With distinct keys the dictionary maps the key at each position to the
    value at that position, and to nothing when the values run out. *)
Lemma dict_zip_lookup_any {V} (keys : list string) (vals : list V) (i : nat)
  (key : string) :
  NoDup keys -> keys !! i = Some key ->
  dict (zip keys vals) !! key = vals !! i.
Proof.
  intros Hnd Hkey.
  assert (NoDup (zip keys vals).*1) as Hnd'
    by (rewrite fst_zip_take; eapply sublist_NoDup;
        [exact Hnd | apply sublist_take]).
  destruct (vals !! i) as [v |] eqn:Hv.
  - unfold dict. apply dict_fold_lookup with (i := i); [exact Hnd' |].
    apply lookup_zip_Some. auto.
  - unfold dict. rewrite dict_fold_absent; [apply lookup_empty |].
    rewrite fst_zip_take. intros [j [Hj Hlt]]%elem_of_take.
    apply lookup_ge_None in Hv.
    pose proof (NoDup_lookup keys j i key Hnd Hj Hkey). lia.
Qed.

(** X17: the dictionary the solver returns maps the name in position i of
    the name list to entry i of the optimizer's final vector, whatever the
    length of that vector, and holds no other key.  A vector with fewer
    than 2n+2 entries silently gives a dictionary without the last names
    (a vector of 2n entries gives neither "rho" nor "home_adv"); entries
    beyond 2n+2 are dropped. *)
Theorem X17_dictionary_follows_vector (dataset : DataFrame)
  (r : OptimizeResult.t) :
  let teams := sorted_home_teams dataset in
  let n := length teams in
  exists d : gmap string float64,
    returned_value false teams r = ParamDict d
    /\ (forall i name,
          param_names teams !! i = Some name ->
          d !! name = OptimizeResult.x r !! i)
    /\ (forall name, name ∉ param_names teams -> d !! name = None)
    /\ (length (OptimizeResult.x r) <= 2 * n ->
        d !! "rho" = None /\ d !! "home_adv" = None).
Proof.
  intros teams n.
  assert (NoDup (param_names teams)) as Hnd
    by apply NoDup_param_names, NoDup_roster.
  eexists. split; [reflexivity |]. split; [| split].
  - intros i name Hi. now apply dict_zip_lookup_any.
  - intros name Hout. now apply dict_lookup_absent.
  - intros Hlen. split.
    + rewrite (dict_zip_lookup_any _ _ (2 * n) "rho" Hnd (param_names_rho _)).
      apply lookup_ge_None. lia.
    + rewrite (dict_zip_lookup_any _ _ (2 * n + 1) "home_adv" Hnd
                 (param_names_home_adv _)).
      apply lookup_ge_None. lia.
Qed.

Lemma X17_dictionary_follows_vector_witness :
  exists d : gmap string float64,
    returned_value false (sorted_home_teams two_team_dataset)
      (OptimizeResult.mk [Fin 1; Fin 1; Fin 0; Fin 0] true 7 (Fin 50) "")
    = ParamDict d
    /\ d !! "attack_Team A" = Some (Fin 1)
    /\ d !! "rho" = None /\ d !! "home_adv" = None.
Proof.
  destruct (X17_dictionary_follows_vector two_team_dataset
              (OptimizeResult.mk [Fin 1; Fin 1; Fin 0; Fin 0] true 7 (Fin 50)
                                 ""))
    as (d & Hd & Hnames & _ & Hshort).
  exists d. split; [exact Hd |]. split.
  - apply (Hnames 0%nat). vm_compute. reflexivity.
  - apply Hshort. vm_compute. lia.
Defined.

(** ** More on the objective *)

Lemma unpack_last_two_short (params : list float64) :
  length params < 2 ->
  unpack_last_two params = inl (not_enough_values (length params)).
Proof.
  intros Hlen. unfold unpack_last_two.
  destruct params as [| a [| b params]]; simpl in *; [reflexivity .. | lia].
Qed.

(** X18: what the objective does, case by case.  A vector with fewer than
    two entries raises ValueError when rho and gamma are unpacked, whatever
    the table; otherwise the empty table gives 0 and a table with at least
    one row raises TypeError at its first row.  In no case does the result
    depend on the values in the vector. *)
Theorem X18_objective_cases (dataset : DataFrame) (teams : list string)
  (n_teams : nat) (params : list float64) :
  estimate_parameters dataset teams n_teams params
  = if (length params <? 2)%nat
    then inl (not_enough_values (length params))
    else match dataset with
         | [] => inr (Fin 0)
         | _ :: _ =>
             inl (TypeError "tuple indices must be integers or slices, not str")
         end.
Proof.
  destruct (Nat.ltb_spec (length params) 2) as [Hshort | Hlong].
  - unfold estimate_parameters. now rewrite unpack_last_two_short.
  - destruct dataset as [| row rest].
    + rewrite estimate_parameters_empty by exact Hlong. f_equal. f_equal. lra.
    + now apply estimate_parameters_raises.
Qed.

(** ** More on the default constraint *)

Lemma fsub_eq_zero (s : float64) (c : R) :
  (s - Fin c)%f64 = Fin 0 <-> s = Fin c.
Proof.
  destruct s as [r | | |]; simpl; split; intros H; try discriminate.
  - injection H as H. f_equal. lra.
  - injection H as ->. f_equal. lra.
Qed.

(** X19: the default equality constraint holds at a vector exactly when its
    first 20 entries sum to 20.  For a vector of 2n+2 parameters this is the
    sum of the n attack values only when n = 20; for up to 9 teams it is the
    sum of all the parameters, rho and gamma included. *)
Theorem X19_default_constraint (n : nat) (v : list float64) :
  length v = 2 * n + 2 ->
  let holds := Forall (fun c => cfun c v = Fin 0) default_constraints in
  (holds <-> py_sum (take 20 v) = Fin 20)
  /\ (n = 20 -> (holds <-> py_sum (take n v) = Fin 20))
  /\ (n <= 9 -> (holds <-> py_sum v = Fin 20)).
Proof.
  intros Hlen holds.
  assert (holds <-> py_sum (take 20 v) = Fin 20) as Hiff.
  { unfold holds, default_constraints.
    rewrite Forall_singleton. cbn [cfun]. apply fsub_eq_zero. }
  split; [exact Hiff |]. split.
  - intros ->. exact Hiff.
  - intros Hn. rewrite take_ge in Hiff by lia. exact Hiff.
Qed.

Lemma X19_default_constraint_witness :
  Forall (fun c => cfun c final_vector = Fin 0) default_constraints
  <-> py_sum final_vector = Fin 20.
Proof.
  destruct (X19_default_constraint 2 final_vector) as (_ & _ & Hall);
    [reflexivity |].
  apply Hall. lia.
Defined.

(** ** The empty table *)

(** X20: the solver does not reject a table without rows.  Both rosters are
    empty and equal; with no initial vector given, every run draws two
    empty samples and calls the optimizer on the vector [0, 1]; the
    objective is the constant 0 on every vector of 2 or more entries; and
    the names of the returned dictionary are "rho" and "home_adv" alone. *)
Theorem X20_empty_table (debug : bool) (options : gmap string pyvalue)
  (constraints : list Constraint) (kwargs : gmap string pyvalue) :
  let call := minimize_call_of [] options constraints kwargs [Fin 0; Fin 1] in
  (forall tr res,
     exec (solve_parameters [] debug None options constraints kwargs) tr res
     <-> exists out,
           tr = [EvUniform (Fin 0) (Fin 1) 0 [];
                 EvUniform (Fin 0) (Fin (-1)) 0 [];
                 EvMinimize call out]
           /\ res = rbind out (fun r => inr (returned_value debug [] r)))
  /\ (forall params,
        2 <= length params -> objective call params = inr (Fin 0))
  /\ param_names (sorted_home_teams []) = ["rho"; "home_adv"].
Proof.
  intros call. split; [| split].
  - intros tr res.
    rewrite (exec_solve_parameters [] debug None options kwargs constraints
               tr res eq_refl).
    split.
    + intros (pre & start & out & (attack & defence & Hla & Hld & -> & ->)
              & -> & ->).
      apply nil_length_inv in Hla, Hld. subst. exists out. auto.
    + intros (out & -> & ->).
      exists [EvUniform (Fin 0) (Fin 1) 0 []; EvUniform (Fin 0) (Fin (-1)) 0 []],
             [Fin 0; Fin 1], out.
      split; [| split; reflexivity]. exists [], []. auto.
  - intros params Hlen. unfold call, minimize_call_of. cbn [objective].
    rewrite estimate_parameters_empty by exact Hlen. f_equal. f_equal. lra.
  - reflexivity.
Qed.

Lemma X20_empty_table_witness :
  objective (minimize_call_of [] default_options default_constraints ∅
                              [Fin 0; Fin 1]) [Fin 0; Fin 1]
  = inr (Fin 0).
Proof.
  destruct (X20_empty_table false default_options default_constraints ∅)
    as (_ & Hconst & _).
  apply Hconst. simpl. lia.
Defined.

(** ** Tables with rows and an optimizer that evaluates its objective *)

(** X21: on a table with at least one row that passes the roster check, no
    run in which the optimizer evaluates its objective returns a value:
    the objective raises at the initial vector, whatever that vector is,
    and the solver ends with that exception. *)
Theorem X21_rows_never_return (dataset : DataFrame) (debug : bool)
  (init_vals : option (list float64)) (options : gmap string pyvalue)
  (constraints : list Constraint) (kwargs : gmap string pyvalue)
  (tr : list event) (res : result solver_output) :
  sorted_home_teams dataset = sorted_away_teams dataset ->
  dataset <> [] ->
  exec (solve_parameters dataset debug init_vals options constraints kwargs)
       tr res ->
  optimizer_evaluates_objective tr ->
  exists call e,
    last tr = Some (EvMinimize call (inl e))
    /\ objective call (x0 call) = inl e
    /\ res = inl e.
Proof.
  intros Heq Hrows Hrun Hfaithful.
  apply exec_solve_parameters in Hrun as (pre & start & out & _ & -> & ->);
    [| exact Heq].
  destruct dataset as [| row rest]; [congruence |].
  destruct (estimate_parameters_never_returns row rest
              (sorted_home_teams (row :: rest))
              (length (sorted_home_teams (row :: rest))) start) as [e He].
  assert (out = inl e) as ->.
  { apply (Hfaithful (minimize_call_of (row :: rest) options constraints
                                       kwargs start) out e); [| exact He].
    rewrite elem_of_app, list_elem_of_singleton. right. reflexivity. }
  eexists _, e. rewrite last_snoc. repeat split. exact He.
Qed.

Lemma X21_rows_never_return_witness :
  let call :=
    minimize_call_of two_team_dataset default_options default_constraints ∅
                     final_vector in
  let err := TypeError "tuple indices must be integers or slices, not str" in
  exists call' e,
    last [EvMinimize call (inl err)] = Some (EvMinimize call' (inl e))
    /\ objective call' (x0 call') = inl e
    /\ @inl exn solver_output err = inl e.
Proof.
  intros call err.
  assert (sorted_home_teams two_team_dataset
          = sorted_away_teams two_team_dataset) as Heq
    by (vm_compute; reflexivity).
  assert (objective call (x0 call) = inl err) as Hobj
    by (apply estimate_parameters_raises; simpl; lia).
  apply (X21_rows_never_return two_team_dataset false (Some final_vector)
           default_options default_constraints ∅ _ _ Heq).
  - discriminate.
  - rewrite solve_parameters_match by exact Heq. apply exec_Minimize_raises.
  - intros c out e Hin Hraise.
    apply list_elem_of_singleton in Hin. injection Hin as -> ->. congruence.
Defined.
